(** * sqlingo: the expression compilation engine

    A shallow embedding of [expression.go] and of the helpers of
    [common.go] it renders through: literal quoting, the value marshaller
    [getSQL], the operator builders with their precedence-driven
    parenthesization, the boolean short cuts of [And]/[Or]/[Not], and the
    flattening behind [In]/[NotIn].

    Conventions of the embedding.
    - A Go [string] is a sequence of bytes: [string] of the standard
      library, whose characters are the 256 byte values.
    - A Go call that can panic (index out of range, call of a nil func,
      [reflect.Value.Interface] on the zero Value) returns [option]:
      [None] is the panic.
    - A Go result pair [(string, error)] is kept as a pair
      [string * option error]; [None] is the nil error.
    - Closures are Rocq functions. *)

From stdpp Require Import base list strings pretty.
From Stdlib Require Import ZArith Lia.
From Stdlib Require Import Ascii.

Local Open Scope Z_scope.

(** ** Bytes and strings *)

Definition byte := ascii.

Definition bytes (s : string) : list byte := String.list_ascii_of_string s.
Definition string_of_bytes (b : list byte) : string := String.string_of_list_ascii b.

Definition len (s : string) : nat := String.length s.

Definition NUL : byte := "000"%char.
Definition newline : byte := "010"%char.
Definition carriageReturn : byte := "013"%char.
Definition backslash : byte := "092"%char.
Definition singleQuote : byte := "039"%char.
Definition doubleQuote : byte := "034"%char.
Definition ctrlZ : byte := "026"%char.

(** The package-level table [needsEscape], a [[256]int] that is zero except
    for a 1 at the indices 0, newline, carriage return, backslash, single
    quote, double quote and 0x1a. *)
Definition needsEscape : list nat :=
  <[nat_of_ascii ctrlZ := 1%nat]>
  (<[nat_of_ascii doubleQuote := 1%nat]>
  (<[nat_of_ascii singleQuote := 1%nat]>
  (<[nat_of_ascii backslash := 1%nat]>
  (<[nat_of_ascii carriageReturn := 1%nat]>
  (<[nat_of_ascii newline := 1%nat]>
  (<[nat_of_ascii NUL := 1%nat]>
  (replicate 256 0%nat))))))).

(** [needsEscape[b]] for a byte [b]: always in range. *)
Definition needsEscape_at (b : byte) : nat := needsEscape !!! nat_of_ascii b.

(** [buf[n] = b]: Go checks the index and panics out of range. *)
Definition store (buf : list byte) (n : nat) (b : byte) : option (list byte) :=
  if decide (n < length buf)%nat then Some (<[n := b]> buf) else None.

(** [buf[:n]]: panics when [n] exceeds the capacity, which here is the
    length. *)
Definition slice_to (buf : list byte) (n : nat) : option (list byte) :=
  if decide (n <= length buf)%nat then Some (take n buf) else None.

(** The body of the [for i := 0; i < len(s); i++] loop of [quoteString],
    run over the bytes of [s] that are left; the state is the buffer and
    the write position [n]. *)
Fixpoint quoteString_loop (s : list byte) (buf : list byte) (n : nat)
  : option (list byte * nat) :=
  match s with
  | [] => Some (buf, n)
  | b :: s' =>
      buf ← store buf n backslash;
      let n := (n + needsEscape_at b)%nat in
      buf ← store buf n b;
      let n := (n + 1)%nat in
      quoteString_loop s' buf n
  end.

Definition quoteString (s : string) : option string :=
  if String.eqb s "" then Some "''"%string
  else
    let buf := replicate (len s * 2 + 2) NUL in
    buf ← store buf 0 singleQuote;
    let n := 1%nat in
    '(buf, n) ← quoteString_loop (bytes s) buf n;
    buf ← store buf n singleQuote;
    let n := (n + 1)%nat in
    buf ← slice_to buf n;
    Some (string_of_bytes buf).

(** *** The escaping rule, as a specification

    The seven bytes of the rule, the escaped form of one byte, the quoted
    form of a string, and the inverse reading of a quoted literal. *)

Definition escaped_bytes : list byte :=
  [NUL; newline; carriageReturn; backslash; singleQuote; doubleQuote; ctrlZ].

Definition is_escaped (b : byte) : bool :=
  bool_decide (b ∈ escaped_bytes).

Definition escape_byte (b : byte) : list byte :=
  if is_escaped b then [backslash; b] else [b].

Definition escape (s : list byte) : list byte :=
  concat (escape_byte <$> s).

Definition quoted (s : string) : string :=
  string_of_bytes (singleQuote :: escape (bytes s) ++ [singleQuote]).



(** ** Expressions, scopes and values *)

(** [type priority uint8]. Priorities are only stored and compared, never
    computed with. *)
Definition priority := Z.

(** A Go [error] value, by its message. *)
Definition error := string.

(** [type scope struct { Database; Tables; lastJoin }]: threaded through
    every render call and never inspected by the code embedded here. The
    tables are kept by name. *)
Record scope := mkScope {
  Database : option string;
  Tables : list string;
  lastJoin : option string;
}.

(** The results [(string, error)] of a render call. *)
Definition result := (string * option error)%type.

(** [type builderFunc = func(scope scope) (string, error)]. The call may
    panic; [None] is the panic. *)
Definition builderFunc := scope → option result.

(** [type expression struct]. The zero value of the [builder] field, the
    nil func, is [None]; the zero value of [sql] is the empty string. *)
Record expression := mkExpression {
  sql : string;
  builder : option builderFunc;
  prio : priority;
  isTrue : bool;
  isFalse : bool;
  isBool : bool;
}.

#[local] Set Warnings "-register-all".

(** The values an [interface{}] operand can hold, by the first case of the
    type switch of [getSQL] that takes them; the values of its default
    case are a [reflectValue], by the [reflect.Kind] case of
    [getSQLFromReflectValue] that takes them. Collaborators outside the
    engine are kept by what their render method returns. *)
Inductive value :=
| Nil                                         (* the nil interface *)
| Int (n : Z)                                 (* int *)
| Str (s : string)                            (* string *)
| Expr (e : expression)                       (* an Expression whose dynamic type is expression *)
| OtherExpr (render : builderFunc) (p : priority) (* an Expression of another type, such as a field *)
| Assign (render : builderFunc)               (* Assignment *)
| SelectFinal (render : option result)        (* toSelectFinal, GetSQL() *)
| UpdateFinal (render : option result)        (* toUpdateFinal, GetSQL() *)
| TableRef (render : scope → string)          (* Table *)
| CaseEnd (render : builderFunc)              (* CaseExpression, End().GetSQL *)
| TimeVal (formatted : option string)         (* time.Time: None is the zero time, else its Format *)
| TimePtr (t : option (option string))        (* *time.Time, None is the nil pointer *)
| Other (v : reflectValue)                    (* the default case *)
with reflectValue :=
| Ptr (p : option value)                      (* kind Ptr: nil, or what it points to *)
| Bool (b : bool)                             (* kind Bool *)
| IntN (n : Z)                                (* kinds Int, Int8 .. Int64 *)
| UintN (n : Z)                               (* kinds Uint, Uint8 .. Uint64 *)
| Float (formatted : string)                  (* kinds Float32, Float64, by FormatFloat(v, 'g', -1, 64) *)
| StrKind (s : string)                        (* kind String, a named string type *)
| Slice (elems : list value)                  (* kinds Array, Slice *)
| Stringer (s : string)                       (* another kind with a String() method *)
| Unsupported (kind : string).                (* another kind without one, by Kind().String() *)

(** [func (e expression) getOperatorPriority() priority] *)
Definition getOperatorPriority (e : expression) : priority := prio e.

(** [func (e expression) GetSQL(scope scope) (string, error)]. With an
    empty [sql] and a nil [builder] the call of the nil func panics. *)
Definition GetSQL (e : expression) (scope : scope) : option result :=
  if negb (String.eqb (sql e) "") then Some (sql e, None)
  else
    match builder e with
    | Some b => b scope
    | None => None
    end.

(** The idiom [x, err := call; if err != nil { return "", err }] followed
    by the rest of the function: [None] (a panic) goes through, an error
    returns at once with the empty string, a success continues. *)
Definition orReturn {A} (r : option (A * option error)) (k : A → option result)
  : option result :=
  '(a, err) ← r;
  match err with
  | Some _ => Some (""%string, err)
  | None => k a
  end.

Notation "x <-? r ; k" := (orReturn r (λ x, k))
  (at level 20, r at level 100, k at level 200, right associativity,
   format "x  <-?  r ;  '/' k").
Notation "' x <-? r ; k" := (orReturn r (λ x, k))
  (at level 20, x pattern, r at level 100, k at level 200, right associativity,
   format "' x  <-?  r ;  '/' k").

(** [func commaValues(scope scope, values []interface{}) (string, error)],
    with the marshaller it calls on every item as a parameter. The state
    of its loop is the index [i] and the text [sql] built so far. *)
Definition commaValues_loop
  (marshal : value → option (string * priority * option error))
  : nat → string → list value → option result :=
  fix loop (i : nat) (sql : string) (values : list value) {struct values}
    : option result :=
    match values with
    | [] => Some (sql, None)
    | item :: values =>
        let sql := if (0 <? i)%nat then sql +:+ ", " else sql in
        '(itemSql, _) <-? marshal item;
        let sql := sql +:+ itemSql in
        loop (S i) sql values
    end.

Definition commaValues_with
  (marshal : value → option (string * priority * option error))
  (values : list value) : option result :=
  commaValues_loop marshal 0%nat ""%string values.

(** [func getSQL(scope scope, value interface{}) (sql string, priority
    priority, err error)], the value marshaller, and
    [func getSQLFromReflectValue(scope scope, v reflect.Value)], which it
    falls back to and which calls it back on what a pointer points to and,
    through [commaValues], on the elements of a slice. *)
Fixpoint getSQL (scope : scope) (value : value) {struct value}
  : option (string * priority * option error) :=
  match value with
  | Nil => Some ("NULL"%string, 0, None)
  | Int n => Some (pretty n, 0, None)
  | Str s => sql ← quoteString s; Some (sql, 0, None)
  | Expr e =>
      '(sql, err) ← GetSQL e scope;
      Some (sql, getOperatorPriority e, err)
  | OtherExpr render p => '(sql, err) ← render scope; Some (sql, p, err)
  | Assign render => '(sql, err) ← render scope; Some (sql, 0, err)
  | SelectFinal render =>
      '(sql, err) ← render;
      match err with
      | Some _ => Some (sql, 0, err)
      | None => Some ("(" +:+ sql +:+ ")", 0, None)
      end
  | UpdateFinal render => '(sql, err) ← render; Some (sql, 0, err)
  | TableRef render => Some (render scope, 0, None)
  | CaseEnd render => '(sql, err) ← render scope; Some (sql, 0, err)
  | TimeVal None => Some ("NULL"%string, 0, None)
  | TimeVal (Some tmStr) => sql ← quoteString tmStr; Some (sql, 0, None)
  | TimePtr None | TimePtr (Some None) => Some ("NULL"%string, 0, None)
  | TimePtr (Some (Some tmStr)) => sql ← quoteString tmStr; Some (sql, 0, None)
  | Other v => getSQLFromReflectValue scope v
  end
with getSQLFromReflectValue (scope : scope) (v : reflectValue) {struct v}
  : option (string * priority * option error) :=
  match v with
  | Ptr None => Some ("NULL"%string, 0, None)
  | Ptr (Some v) =>
      (* the loop that dereferences pointers, then [getSQL] on what is
         reached; reaching a non-nil [*time.Time] it goes on to the
         [time.Time], whose case of [getSQL] is written out; a value of
         a collaborator that is reached is taken to be of a kind that is
         no pointer, as [expression] is *)
      (fix deref (v : value) : option (string * priority * option error) :=
         match v with
         | Other (Ptr None) | TimePtr None => Some ("NULL"%string, 0, None)
         | Other (Ptr (Some v)) => deref v
         | TimePtr (Some None) => Some ("NULL"%string, 0, None)
         | TimePtr (Some (Some tmStr)) =>
             sql ← quoteString tmStr; Some (sql, 0, None)
         | _ => getSQL scope v
         end) v
  | Bool b => Some (if b then "1"%string else "0"%string, 0, None)
  | IntN n => Some (pretty n, 0, None)
  | UintN n => Some (pretty n, 0, None)
  | Float formatted => Some (formatted, 0, None)
  | StrKind s => sql ← quoteString s; Some (sql, 0, None)
  | Slice elems =>
      '(sql, err) ← commaValues_with (getSQL scope) elems;
      match err with
      | None => Some ("(" +:+ sql +:+ ")", 0, None)
      | Some _ => Some (sql, 0, err)
      end
  | Stringer s => sql ← quoteString s; Some (sql, 0, None)
  | Unsupported kind => Some (""%string, 0, Some ("invalid type " +:+ kind))
  end.

(** Modelled from the spec: [getSQLFromWhatever], which [commaValues] and
    the other helpers of [common.go] call and which is not among the
    sources. It is the Value Marshaller of the spec, with the contract
    [marshal(context, value) -> (text, precedence, error)]: [getSQL]. *)
Definition getSQLFromWhatever (scope : scope) (value : value)
  : option (string * priority * option error) :=
  getSQL scope value.

Definition commaValues (scope : scope) (values : list value) : option result :=
  commaValues_with (getSQLFromWhatever scope) values.

(** ** Building expressions *)

(** [func staticExpression(sql string, priority priority, isBool bool)] *)
Definition staticExpression (sql : string) (priority : priority) (isBool : bool)
  : expression :=
  {| sql := sql; builder := None; prio := priority;
     isTrue := false; isFalse := false; isBool := isBool |}.

(** [func True() BooleanExpression] and [func False() BooleanExpression];
    the names [True] and [False] are taken by the propositions. *)
Definition True_ : expression :=
  {| sql := "1"; builder := None; prio := 0;
     isTrue := true; isFalse := false; isBool := true |}.

Definition False_ : expression :=
  {| sql := "0"; builder := None; prio := 0;
     isTrue := false; isFalse := true; isBool := true |}.

(** [func Raw(sql string) UnknownExpression] *)
Definition Raw (sql : string) : expression :=
  {| sql := sql; builder := None; prio := 99;
     isTrue := false; isFalse := false; isBool := false |}.

(** An expression literal that sets [builder] and leaves the other fields
    as given: [expression{builder: ..., priority: ..., isBool: ...}]. *)
Definition built (builder : builderFunc) (priority : priority) (isBool : bool)
  : expression :=
  {| sql := ""; builder := Some builder; prio := priority;
     isTrue := false; isFalse := false; isBool := isBool |}.

(** [func function(name string, args ...interface{}) expression] *)
Definition function (name : string) (args : list value) : expression :=
  built (λ scope,
    valuesSql <-? commaValues scope args;
    Some (name +:+ "(" +:+ valuesSql +:+ ")", None)) 0 false.

Definition Function (name : string) (args : list value) : expression :=
  function name args.

(** [func If(predicate, trueValue, falseValue Expression) Expression] *)
Definition If (predicate trueValue falseValue : value) : expression :=
  Function "IF" [predicate; trueValue; falseValue].

(** [func (e expression) As(name string) Alias] *)
Definition As (e : expression) (name : string) : expression :=
  built (λ scope,
    expressionSql <-? GetSQL e scope;
    Some (expressionSql +:+ " AS " +:+ name, None)) 0 false.

(** [strings.Builder], by the text written so far. *)
Definition WriteByte (sb : string) (c : byte) : string := sb +:+ String c "".
Definition WriteString (sb : string) (s : string) : string := sb +:+ s.

(** [func (e expression) binaryOperation(operator string, value
    interface{}, priority priority, isBool bool) expression] *)
Definition binaryOperation (e : expression) (operator : string) (value : value)
    (priority : priority) (isBool : bool) : expression :=
  built (λ scope,
    leftSql <-? GetSQL e scope;
    let leftPriority := prio e in
    '(rightSql, rightPriority) <-? getSQL scope value;
    let shouldParenthesizeLeft := leftPriority >? priority in
    let shouldParenthesizeRight := rightPriority >=? priority in
    let sb := ""%string in
    let sb := if shouldParenthesizeLeft then WriteByte sb "("%char else sb in
    let sb := WriteString sb leftSql in
    let sb := if shouldParenthesizeLeft then WriteByte sb ")"%char else sb in
    let sb := WriteByte sb " "%char in
    let sb := WriteString sb operator in
    let sb := WriteByte sb " "%char in
    let sb := if shouldParenthesizeRight then WriteByte sb "("%char else sb in
    let sb := WriteString sb rightSql in
    let sb := if shouldParenthesizeRight then WriteByte sb ")"%char else sb in
    Some (sb, None)) priority isBool.

(** [func (e expression) prefixSuffixExpression(prefix string, suffix
    string, priority priority, isBool bool) expression] *)
Definition prefixSuffixExpression (e : expression) (prefix suffix : string)
    (priority : priority) (isBool : bool) : expression :=
  if negb (String.eqb (sql e) "") then
    {| sql := prefix +:+ sql e +:+ suffix; builder := None; prio := priority;
       isTrue := false; isFalse := false; isBool := isBool |}
  else
    built (λ scope,
      exprSql <-? GetSQL e scope;
      let sb := ""%string in
      let sb := WriteString sb prefix in
      let shouldParenthesize := prio e >? priority in
      let sb := if shouldParenthesize then WriteByte sb "("%char else sb in
      let sb := WriteString sb exprSql in
      let sb := if shouldParenthesize then WriteByte sb ")"%char else sb in
      let sb := WriteString sb suffix in
      Some (sb, None)) priority isBool.

Definition NotEquals (e : expression) (other : value) : expression :=
  binaryOperation e "<>" other 11 true.
Definition Equals (e : expression) (other : value) : expression :=
  binaryOperation e "=" other 11 true.
Definition LessThan (e : expression) (other : value) : expression :=
  binaryOperation e "<" other 11 true.
Definition LessThanOrEquals (e : expression) (other : value) : expression :=
  binaryOperation e "<=" other 11 true.
Definition GreaterThan (e : expression) (other : value) : expression :=
  binaryOperation e ">" other 11 true.
Definition GreaterThanOrEquals (e : expression) (other : value) : expression :=
  binaryOperation e ">=" other 11 true.

(** [func toBooleanExpression(value interface{}) BooleanExpression]; the
    nil result is [None]. The type assertion [value.(expression)] holds
    for [Expr] only. *)
Definition toBooleanExpression (value : value) : option expression :=
  match value with
  | Expr e =>
      if isTrue e then Some True_
      else if isFalse e then Some False_
      else if isBool e then Some e
      else None
  | _ => None
  end.

Definition And (e : expression) (other : value) : expression :=
  if isFalse e then e
  else
    match (if isTrue e then toBooleanExpression other else None) with
    | Some exp => exp
    | None => binaryOperation e "AND" other 14 true
    end.

Definition Or (e : expression) (other : value) : expression :=
  if isTrue e then e
  else
    match (if isFalse e then toBooleanExpression other else None) with
    | Some exp => exp
    | None => binaryOperation e "OR" other 16 true
    end.

Definition Xor (e : expression) (other : value) : expression :=
  binaryOperation e "XOR" other 15 true.
Definition Add (e : expression) (other : value) : expression :=
  binaryOperation e "+" other 7 false.
Definition Sub (e : expression) (other : value) : expression :=
  binaryOperation e "-" other 7 false.
Definition Mul (e : expression) (other : value) : expression :=
  binaryOperation e "*" other 6 false.
Definition Div (e : expression) (other : value) : expression :=
  binaryOperation e "/" other 6 false.
Definition IntDiv (e : expression) (other : value) : expression :=
  binaryOperation e "DIV" other 6 false.
Definition Mod (e : expression) (other : value) : expression :=
  binaryOperation e "%" other 6 false.
Definition Like (e : expression) (other : value) : expression :=
  binaryOperation e "LIKE" other 11 true.

Definition Sum (e : expression) : expression := function "SUM" [Expr e].
Definition Avg (e : expression) : expression := function "AVG" [Expr e].
Definition Min (e : expression) : expression := function "MIN" [Expr e].
Definition Max (e : expression) : expression := function "MAX" [Expr e].
Definition Lower (e : expression) : expression := function "LOWER" [Expr e].
Definition Upper (e : expression) : expression := function "UPPER" [Expr e].
Definition Trim (e : expression) : expression := function "TRIM" [Expr e].
Definition Left (e : expression) (count : value) : expression :=
  function "LEFT" [Expr e; count].
Definition Right (e : expression) (count : value) : expression :=
  function "RIGHT" [Expr e; count].
Definition IfNull (e : expression) (altValue : value) : expression :=
  Function "IFNULL" [Expr e; altValue].
Definition IsEmpty (e : expression) : expression := Equals e (Str "").

Definition IsNull (e : expression) : expression :=
  prefixSuffixExpression e "" " IS NULL" 11 true.
Definition IsNotNull (e : expression) : expression :=
  prefixSuffixExpression e "" " IS NOT NULL" 11 true.
Definition IsTrue (e : expression) : expression :=
  prefixSuffixExpression e "" " IS TRUE" 11 true.
Definition IsNotTrue (e : expression) : expression :=
  prefixSuffixExpression e "" " IS NOT TRUE" 11 true.
Definition IsFalse (e : expression) : expression :=
  prefixSuffixExpression e "" " IS FALSE" 11 true.
Definition IsNotFalse (e : expression) : expression :=
  prefixSuffixExpression e "" " IS NOT FALSE" 11 true.

Definition Not (e : expression) : expression :=
  if isTrue e then False_
  else if isFalse e then True_
  else prefixSuffixExpression e "NOT " "" 13 true.

Definition Contains (e : expression) (substring : string) : expression :=
  GreaterThan (function "LOCATE" [Str substring; Expr e]) (Int 0).

(** ** Set membership and ranges *)

(** [func expandSliceValue(value reflect.Value) (result []interface{})],
    on the [reflect.Value] of a value. The nil interface has the zero
    Value, and [Elem()] of a nil pointer is the zero Value too: its kind
    is Invalid, which takes the default case, where [Interface()] panics
    on it. An element of a slice of interfaces has kind Interface and its
    [Elem()] is the value it holds. The values of the collaborators are
    taken to be of a kind that is neither a pointer nor a slice, as
    [expression] is. *)
Fixpoint expandSliceValue (v : value) : option (list value) :=
  match v with
  | Other (Slice elems) =>
      (fix loop (result : list value) (elems : list value) {struct elems}
         : option (list value) :=
         match elems with
         | [] => Some result
         | elem :: elems =>
             expanded ← expandSliceValue elem;
             loop (result ++ expanded) elems
         end) [] elems
  | Other (Ptr (Some elem)) => expandSliceValue elem
  | TimePtr (Some tm) => Some [TimeVal tm]
  | Other (Ptr None) | TimePtr None | Nil => None
  | _ => Some [v]
  end.

(** The loop of [expandSliceValue] over the elements of an array or
    slice, by name. *)
Definition expandSliceValue_elems : list value → list value → option (list value) :=
  fix loop (result : list value) (elems : list value) {struct elems}
    : option (list value) :=
    match elems with
    | [] => Some result
    | elem :: elems =>
        expanded ← expandSliceValue elem;
        loop (result ++ expanded) elems
    end.

(** [func expandSliceValues(values []interface{}) (result []interface{})] *)
Fixpoint expandSliceValues_loop (result : list value) (values : list value)
  : option (list value) :=
  match values with
  | [] => Some result
  | v :: values =>
      expanded ← expandSliceValue v;
      expandSliceValues_loop (result ++ expanded) values
  end.

Definition expandSliceValues (values : list value) : option (list value) :=
  expandSliceValues_loop [] values.

Definition joinerFunc := string → string → string.
Definition booleanFunc := value → expression.

(** [func (e expression) getBuilder(single booleanFunc, joiner joinerFunc,
    values ...interface{}) builderFunc] *)
Definition getBuilder (e : expression) (single : booleanFunc)
    (joiner : joinerFunc) (values : list value) : builderFunc :=
  λ scope,
    let rest (valuesSql : string) : option result :=
      exprSql <-? GetSQL e scope;
      Some (joiner exprSql valuesSql, None) in
    match values with
    | [value] =>
        match value with
        | SelectFinal selectStatus =>
            (* IN subquery *)
            valuesSql <-? selectStatus;
            rest valuesSql
        | _ =>
            (* IN a single value *)
            GetSQL (single value) scope
        end
    | _ =>
        (* IN a list *)
        valuesSql <-? commaValues scope values;
        rest valuesSql
    end.

(** [func (e expression) In(values ...interface{}) BooleanExpression];
    [None] when the flattening of the values panics. *)
Definition In (e : expression) (values : list value) : option expression :=
  values ← expandSliceValues values;
  if (length values =? 0)%nat then Some False_
  else
    let joiner : joinerFunc :=
      λ exprSql valuesSql, exprSql +:+ " IN (" +:+ valuesSql +:+ ")" in
    let builder := getBuilder e (Equals e) joiner values in
    Some (built builder 11 false).

Definition NotIn (e : expression) (values : list value) : option expression :=
  values ← expandSliceValues values;
  if (length values =? 0)%nat then Some True_
  else
    let joiner : joinerFunc :=
      λ exprSql valuesSql, exprSql +:+ " NOT IN (" +:+ valuesSql +:+ ")" in
    let builder := getBuilder e (NotEquals e) joiner values in
    Some (built builder 11 false).

(** [func (e expression) buildBetween(operator string, min interface{},
    max interface{}) BooleanExpression] *)
Definition buildBetween (e : expression) (operator : string) (min max : value)
  : expression :=
  built (λ scope,
    exprSql <-? GetSQL e scope;
    '(minSql, _) <-? getSQL scope min;
    '(maxSql, _) <-? getSQL scope max;
    Some (exprSql +:+ operator +:+ minSql +:+ " AND " +:+ maxSql, None))
    12 false.

Definition Between (e : expression) (min max : value) : expression :=
  buildBetween e " BETWEEN " min max.

Definition NotBetween (e : expression) (min max : value) : expression :=
  buildBetween e " NOT BETWEEN " min max.

(** ** The vocabulary of the properties *)

(** A text with or without its pair of parentheses. *)
Definition parenthesized (b : bool) (s : string) : string :=
  if b then "(" +:+ s +:+ ")" else s.

(** Which of the two ways of rendering a node has: a literal text is set
    when [sql] is not the empty string, a render function when [builder]
    is not nil. *)
Definition literalSet (e : expression) : bool := negb (String.eqb (sql e) "").
Definition builderSet (e : expression) : bool :=
  match builder e with Some _ => true | None => false end.
Definition exactlyOneSet (e : expression) : bool :=
  xorb (literalSet e) (builderSet e).

(** The nodes that the constructors of the package return: the constants,
    [Raw], the static literals, the literals that set a builder
    (operators, function calls, aliases, ranges, memberships) and the
    unary operators, over any operand. [And], [Or] and [Not] return one
    of these or hand back a node they were given. *)
Inductive produced : expression → Prop :=
| produced_True : produced True_
| produced_False : produced False_
| produced_Raw sql : produced (Raw sql)
| produced_static sql priority isBool :
    produced (staticExpression sql priority isBool)
| produced_built builder priority isBool :
    produced (built builder priority isBool)
| produced_prefixSuffix e prefix suffix priority isBool :
    produced (prefixSuffixExpression e prefix suffix priority isBool).

(** A value that [toBooleanExpression] recognizes: an [expression] that is
    definitely true, definitely false or flagged boolean. *)
Definition classified (v : value) : bool :=
  match v with
  | Expr e => isTrue e || isFalse e || isBool e
  | _ => false
  end.

(** No text comes with an error. *)
Definition clean (r : option result) : Prop :=
  ∀ s err, r = Some (s, Some err) → s = ""%string.

(** An error of the nested call [child] is the error of the result [r],
    with the empty text. *)
Definition propagated {A} (child : option (A * option error)) (r : option result)
  : Prop :=
  ∀ a err, child = Some (a, Some err) → r = Some (""%string, Some err).

(** What the node of a membership over the flattened values [flat] does
    with the errors of its nested calls, [r] being what the node renders:
    the error of a single select statement, of the operand and then of
    the value when there is a single other value, of the first value that
    fails in a list, and of the operand after the values, is the error of
    [r], with the empty text; and [r] has no text with an error. *)
Definition membershipPropagates (scope : scope) (e : expression)
    (flat : list value) (r : option result) : Prop :=
  (∀ selectStatus, flat = [SelectFinal selectStatus] → propagated selectStatus r)
  ∧ (∀ v, flat = [v] → (∀ selectStatus, v ≠ SelectFinal selectStatus) →
       propagated (GetSQL e scope) r
       ∧ (∀ exprSql, GetSQL e scope = Some (exprSql, None) →
                     propagated (getSQL scope v) r))
  ∧ (∀ before item after,
       flat = before ++ item :: after → length flat ≠ 1%nat →
       Forall (λ v, ∃ s p, getSQL scope v = Some (s, p, None)) before →
       propagated (getSQL scope item) r)
  ∧ (∀ valuesSql,
       flat = [SelectFinal (Some (valuesSql, None))]
       ∨ (length flat ≠ 1%nat
          ∧ commaValues scope flat = Some (valuesSql, None)) →
       propagated (GetSQL e scope) r)
  ∧ clean r.

(** Inputs for the examples: a scope without tables, and a column-like
    literal of precedence 0, as a field reference is. *)
Definition noTables : scope := mkScope None [] None.
Definition column (name : string) : expression := staticExpression name 0 false.
Definition booleanColumn (name : string) : expression :=
  staticExpression name 0 true.

(** Arguments that flatten to no value: an array of an empty slice and of
    a pointer to an empty slice. *)
Definition emptyNested : list value :=
  [Other (Slice [Other (Slice []); Other (Ptr (Some (Other (Slice []))))])].

(** A select statement whose rendering fails. *)
Definition failingSelect : value :=
  SelectFinal (Some ("SELECT"%string, Some "no table"%string)).

(** A value that holds a nil pointer: the nil pointer itself, a pointer
    to such a value, or an array or slice with such an element. An
    interface is transparent: an element of a slice of interfaces is the
    value it holds. *)
Inductive holdsNilPointer : value → Prop :=
| holds_nil : holdsNilPointer (Other (Ptr None))
| holds_pointee v :
    holdsNilPointer v → holdsNilPointer (Other (Ptr (Some v)))
| holds_element elems v :
    v ∈ elems → holdsNilPointer v → holdsNilPointer (Other (Slice elems)).

(** ** More of the package *)

(** [func (e expression) CharLength() NumberExpression] *)
Definition CharLength (e : expression) : expression :=
  function "CHAR_LENGTH" [Expr e].

(** [func (e expression) HasPrefix(prefix interface{}) BooleanExpression] *)
Definition HasPrefix (e : expression) (prefix : value) : expression :=
  Equals (Left e (Expr (function "CHAR_LENGTH" [prefix]))) prefix.

(** [func (e expression) HasSuffix(suffix interface{}) BooleanExpression] *)
Definition HasSuffix (e : expression) (suffix : value) : expression :=
  Equals (Right e (Expr (function "CHAR_LENGTH" [suffix]))) suffix.

(** [func (e expression) IfEmpty(altValue interface{}) StringExpression] *)
Definition IfEmpty (e : expression) (altValue : value) : expression :=
  If (Expr (NotEquals e (Str ""))) (Expr e) altValue.

(** The variadic functions [And] and [Or] of the package (those of
    [expression.go]), which share their names with the methods; they are
    kept apart in a module. A condition is a [BooleanExpression] of
    dynamic type [expression], or the nil interface, [None]; so is the
    result. *)
Module Package.

(** The [for _, condition := range expressions] loop, with the method
    that combines as a parameter. *)
Fixpoint fold (method : expression → value → expression)
    (result : option expression) (expressions : list (option expression))
  : option expression :=
  match expressions with
  | [] => result
  | condition :: expressions =>
      let result :=
        match result with
        | None => condition
        | Some r =>
            Some (method r (match condition with
                            | Some c => Expr c
                            | None => Nil
                            end))
        end in
      fold method result expressions
  end.

Definition And (expressions : list (option expression)) : option expression :=
  if (length expressions =? 0)%nat then Some True_
  else fold And None expressions.

Definition Or (expressions : list (option expression)) : option expression :=
  if (length expressions =? 0)%nat then Some False_
  else fold Or None expressions.

End Package.

(** ** The helpers of [common.go] and the insert statement *)

(** [type Field interface], by its [GetSQL(scope scope) (string, error)]. *)
Definition Field := builderFunc.

(** [type assignment struct { Assignment; field Field; value interface{} }] *)
Record assignment := mkAssignment {
  assignment_field : Field;
  assignment_value : value;
}.

(** [func (a assignment) GetSQL(scope scope) (string, error)] *)
Definition assignment_GetSQL (a : assignment) (scope : scope) : option result :=
  '(valueSql, _) <-? getSQLFromWhatever scope (assignment_value a);
  fieldSql <-? assignment_field a scope;
  Some (fieldSql +:+ " = " +:+ valueSql, None).

(** [func command(args ...interface{}) expression] *)
Definition command_loop (scope : scope)
  : nat → string → list value → option result :=
  fix loop (i : nat) (sql : string) (args : list value) {struct args}
    : option result :=
    match args with
    | [] => Some (sql, None)
    | item :: args =>
        let sql := if (0 <? i)%nat then sql +:+ " " else sql in
        '(itemSql, _) <-? getSQLFromWhatever scope item;
        let sql := sql +:+ itemSql in
        loop (S i) sql args
    end.

Definition command (args : list value) : expression :=
  built (λ scope, command_loop scope 0%nat ""%string args) 0 false.

(** [commaFields], [commaExpressions], [commaAssignments] and
    [commaOrderBys] are one loop, over the [GetSQL] of their items. *)
Definition commaItems_loop {A} (render : A → option result)
  : nat → string → list A → option result :=
  fix loop (i : nat) (sql : string) (items : list A) {struct items}
    : option result :=
    match items with
    | [] => Some (sql, None)
    | item :: items =>
        let sql := if (0 <? i)%nat then sql +:+ ", " else sql in
        itemSql <-? render item;
        let sql := sql +:+ itemSql in
        loop (S i) sql items
    end.

Definition commaItems {A} (render : A → option result) (items : list A)
  : option result :=
  commaItems_loop render 0%nat ""%string items.

Definition commaFields (scope : scope) (fields : list Field) : option result :=
  commaItems (λ item, item scope) fields.

Definition commaExpressions (scope : scope) (expressions : list expression)
  : option result :=
  commaItems (λ item, GetSQL item scope) expressions.

Definition commaAssignments (scope : scope) (assignments : list assignment)
  : option result :=
  commaItems (λ item, assignment_GetSQL item scope) assignments.

(** [func getSQLForName(name string) string] *)
Definition getSQLForName (name : string) : string := "`" +:+ name +:+ "`".

(** [type Table interface], by the three methods that the insert
    statement calls, and [type Model interface]; the methods are taken to
    return. *)
Record Table := mkTable {
  GetName : string;
  Table_GetSQL : scope → string;
  GetFields : list Field;
}.

Record Model := mkModel {
  GetTable : Table;
  GetValues : list value;
}.

(** What [addModel] is given, by the case that takes it in the place
    where it stands: the nil interface; a value that is a [Model] (as an
    element of a slice, one whose address is); a pointer of a type that
    is no [Model], nil or to a value; a slice; an array; a value of
    another kind, by its number. *)
Inductive modelArg :=
| ModelNil
| IsModel (m : Model)
| ModelPtr (p : option modelArg)
| ModelSlice (elems : list modelArg)
| ModelArray (elems : list modelArg)
| ModelOther (kind : nat).

(** [func addModel(models *[]Model, model interface{}) error]; the slice
    behind the pointer is returned with the error. [Indirect] of a nil
    pointer is the zero Value, whose [Interface()] panics. The address of
    an element of a slice goes through the pointer case back to the
    element. An array held in an interface is not addressable, so
    [Addr()] panics on its first element. *)
Fixpoint addModel (models : list Model) (model : modelArg) {struct model}
  : option (list Model * option error) :=
  match model with
  | IsModel m => Some (models ++ [m], None)
  | ModelPtr None => None
  | ModelPtr (Some v) => addModel models v
  | ModelSlice elems =>
      (fix loop (models : list Model) (elems : list modelArg) {struct elems}
         : option (list Model * option error) :=
         match elems with
         | [] => Some (models, None)
         | elem :: elems =>
             '(models, err) ← addModel models elem;
             match err with
             | Some _ => Some (models, err)
             | None => loop models elems
             end
         end) models elems
  | ModelArray [] => Some (models, None)
  | ModelArray (_ :: _) => None
  | ModelNil => Some (models, Some ("unknown model type (kind = 0)"%string))
  | ModelOther kind =>
      Some (models, Some ("unknown model type (kind = " +:+ pretty kind +:+ ")"))
  end.

(** The loop of [insertStatus.GetSQL] over [s.models]. *)
Fixpoint addModels (models : list Model) (args : list modelArg)
  : option (list Model * option error) :=
  match args with
  | [] => Some (models, None)
  | model :: args =>
      '(models, err) ← addModel models model;
      match err with
      | Some _ => Some (models, err)
      | None => addModels models args
      end
  end.

(** [type insertStatus struct]. [tables] is [s.scope.Tables], whose
    elements the scope of the embedding keeps by name. *)
Record insertStatus := mkInsertStatus {
  method : string;
  insert_scope : scope;
  tables : list Table;
  fields : list Field;
  values : list value;
  models : list modelArg;
  onDuplicateKeyUpdateAssignments : list assignment;
}.

(** [func (d *database) InsertInto(table Table) InsertWithTable] and
    [ReplaceInto], for the database handle [d]. *)
Definition InsertInto (d : string) (table : Table) : insertStatus :=
  {| method := "INSERT";
     insert_scope := mkScope (Some d) [GetName table] None;
     tables := [table];
     fields := []; values := []; models := [];
     onDuplicateKeyUpdateAssignments := [] |}.

Definition ReplaceInto (d : string) (table : Table) : insertStatus :=
  {| method := "REPLACE";
     insert_scope := mkScope (Some d) [GetName table] None;
     tables := [table];
     fields := []; values := []; models := [];
     onDuplicateKeyUpdateAssignments := [] |}.

Definition Fields (s : insertStatus) (newFields : list Field) : insertStatus :=
  {| method := method s; insert_scope := insert_scope s; tables := tables s;
     fields := newFields; values := values s; models := models s;
     onDuplicateKeyUpdateAssignments := onDuplicateKeyUpdateAssignments s |}.

(** [func (s insertStatus) Values(values ...interface{})]: the values of
    one call are one element, a slice, of [s.values]. *)
Definition Values (s : insertStatus) (row : list value) : insertStatus :=
  {| method := method s; insert_scope := insert_scope s; tables := tables s;
     fields := fields s; values := values s ++ [Other (Slice row)];
     models := models s;
     onDuplicateKeyUpdateAssignments := onDuplicateKeyUpdateAssignments s |}.

Definition Models (s : insertStatus) (newModels : list modelArg) : insertStatus :=
  {| method := method s; insert_scope := insert_scope s; tables := tables s;
     fields := fields s; values := values s; models := newModels;
     onDuplicateKeyUpdateAssignments := onDuplicateKeyUpdateAssignments s |}.

Definition OnDuplicateKeyUpdate (s : insertStatus) : insertStatus := s.

(** [func (s insertStatus) Set(field Field, value interface{})]; [Set] is
    a keyword. *)
Definition Set_ (s : insertStatus) (field : Field) (v : value) : insertStatus :=
  {| method := method s; insert_scope := insert_scope s; tables := tables s;
     fields := fields s; values := values s; models := models s;
     onDuplicateKeyUpdateAssignments :=
       onDuplicateKeyUpdateAssignments s ++ [mkAssignment field v] |}.

(** The loop of [insertStatus.GetSQL] over the models: the table of each
    is compared with the first table of the scope. *)
Fixpoint modelValues (tableName : string) (rows : list value)
    (models : list Model) : list value + error :=
  match models with
  | [] => inl rows
  | model :: models =>
      if negb (String.eqb (GetName (GetTable model)) tableName)
      then inr "invalid table from model"%string
      else modelValues tableName (rows ++ [Other (Slice (GetValues model))]) models
  end.

(** [func (s insertStatus) GetSQL() (string, error)]. [None] is a panic:
    an index out of range, or a panic of [addModel]. *)
Definition insertStatus_GetSQL (s : insertStatus) : option result :=
  let finish (fieldList : list Field) (valueList : list value) : option result :=
    table ← tables s !! 0%nat;
    let tableSql := Table_GetSQL table (insert_scope s) in
    fieldsSql <-? commaFields (insert_scope s) fieldList;
    valuesSql <-? commaValues (insert_scope s) valueList;
    let sqlString :=
      method s +:+ " INTO " +:+ tableSql +:+ " (" +:+ fieldsSql +:+ ") VALUES "
      +:+ valuesSql in
    if (0 <? length (onDuplicateKeyUpdateAssignments s))%nat then
      assignmentsSql <-? commaAssignments (insert_scope s)
                           (onDuplicateKeyUpdateAssignments s);
      Some (sqlString +:+ " ON DUPLICATE KEY UPDATE " +:+ assignmentsSql, None)
    else Some (sqlString, None) in
  if (0 <? length (models s))%nat then
    '(collected, err) ← addModels [] (models s);
    match err with
    | Some _ => Some (""%string, err)
    | None =>
        first ← collected !! 0%nat;
        let fieldList := GetFields (GetTable first) in
        table ← tables s !! 0%nat;
        match modelValues (GetName table) [] collected with
        | inr err => Some (""%string, Some err)
        | inl valueList => finish fieldList valueList
        end
    end
  else finish (fields s) (values s).

(** ** More vocabulary *)

(** Texts with a separator between them. *)
Fixpoint joined (separator : string) (texts : list string) : string :=
  match texts with
  | [] => ""
  | [text] => text
  | text :: texts => text +:+ separator +:+ joined separator texts
  end.

(** A value of a collaborator: one that a case of the type switch of
    [getSQL] takes by an interface it implements. *)
Definition isCollaborator (v : value) : bool :=
  match v with
  | Expr _ | OtherExpr _ _ | Assign _ | SelectFinal _ | UpdateFinal _
  | TableRef _ | CaseEnd _ => true
  | _ => false
  end.

(** A value behind [n] non-nil pointers. *)
Definition pointerTo (n : nat) (v : value) : value :=
  Nat.iter n (λ w, Other (Ptr (Some w))) v.

(** The constant of a truth value. *)
Definition constant (b : bool) : expression := if b then True_ else False_.

(** What a value directly holds: what a pointer points to, the elements
    of an array or slice. *)
Inductive heldBy : value → value → Prop :=
| held_pointee w : heldBy w (Other (Ptr (Some w)))
| held_element w elems : w ∈ elems → heldBy w (Other (Slice elems)).

(** A value that flattening stops at: neither nil, nor a pointer, nor an
    array or slice. *)
Definition isFlat (v : value) : bool :=
  match v with
  | Nil | TimePtr _ | Other (Ptr _) | Other (Slice _) => false
  | _ => true
  end.

(** A value that holds a nil: the nil interface, a nil pointer, or a
    pointer to, or an array or slice with, such a value. *)
Inductive holdsNil : value → Prop :=
| holdsNil_interface : holdsNil Nil
| holdsNil_pointer : holdsNil (Other (Ptr None))
| holdsNil_time : holdsNil (TimePtr None)
| holdsNil_held w v : heldBy w v → holdsNil w → holdsNil v.

(** Plain data: no expression or other collaborator, and no value of an
    unsupported type, at any depth. *)
Fixpoint isData (v : value) : bool :=
  match v with
  | Nil | Int _ | Str _ | TimeVal _ | TimePtr _ => true
  | Other r => isDataReflect r
  | _ => false
  end
with isDataReflect (r : reflectValue) : bool :=
  match r with
  | Ptr None => true
  | Ptr (Some v) => isData v
  | Slice elems => forallb isData elems
  | Unsupported _ => false
  | _ => true
  end.

(** A reader of a quoted literal, from after its opening quote: a
    backslash takes the next byte as it is, a single quote ends the
    literal. It returns the content and what follows the closing quote. *)
Fixpoint scanLiteral (q : list byte) : option (list byte * list byte) :=
  match q with
  | [] => None
  | b :: q' =>
      if Ascii.eqb b singleQuote then Some ([], q')
      else if Ascii.eqb b backslash then
        match q' with
        | [] => None
        | c :: q'' => prod_map (cons c) id <$> scanLiteral q''
        end
      else prod_map (cons b) id <$> scanLiteral q'
  end.

(** Reading a literal at the head of a text: the opening quote, then
    [scanLiteral]. *)
Definition readLiteral (text : list byte) : option (list byte * list byte) :=
  match text with
  | [] => None
  | b :: body => if Ascii.eqb b singleQuote then scanLiteral body else None
  end.

(** What a comma helper does with the texts of its items: it joins them
    when all items render, and returns the error of the first item that
    fails, with the empty text. *)
Definition commaJoins {A} (comma : list A → option result)
    (render : A → option result) : Prop :=
  (∀ items texts,
     Forall2 (λ item text, render item = Some (text, None)) items texts →
     comma items = Some (joined ", " texts, None))
  ∧ (∀ before item after text err,
       Forall (λ item, ∃ t, render item = Some (t, None)) before →
       render item = Some (text, Some err) →
       comma (before ++ item :: after) = Some (""%string, Some err)).

(** Inputs for the examples: a table of two columns, and two of its rows. *)
Definition usersTable : Table :=
  {| GetName := "users";
     Table_GetSQL := λ _, "`users`"%string;
     GetFields := [λ _, Some ("`id`"%string, None);
                   λ _, Some ("`name`"%string, None)] |}.

Definition alice : Model :=
  {| GetTable := usersTable; GetValues := [Int 1; Str "Alice"] |}.

Definition bob : Model :=
  {| GetTable := usersTable; GetValues := [Int 2; Str "O'Hara"] |}.

Definition insertTwoRows : insertStatus :=
  Values (Values (Fields (InsertInto "db" usersTable) (GetFields usersTable))
            [Int 1; Str "Alice"])
    [Int 2; Str "O'Hara"].

Definition replaceOrUpdate : insertStatus :=
  Set_ (OnDuplicateKeyUpdate
          (Values (Fields (ReplaceInto "db" usersTable) (GetFields usersTable))
             [Int 1; Str "Alice"]))
    (λ _, Some ("`name`"%string, None)) (Str "Al").

Definition insertNoRow : insertStatus :=
  Fields (InsertInto "db" usersTable) (GetFields usersTable).

Definition insertTwoModels : insertStatus :=
  Models (Values (InsertInto "db" usersTable) [Int 0])
    [ModelSlice [IsModel alice; ModelPtr (Some (IsModel bob))]].

(** * Properties *)

(** ** Quoting *)

Lemma needsEscape_at_spec (b : byte) :
  needsEscape_at b = if is_escaped b then 1%nat else 0%nat.
Proof.
  destruct b as [[] [] [] [] [] [] [] []]; vm_compute; reflexivity.
Qed.

Lemma escape_byte_length (b : byte) :
  length (escape_byte b) = (1 + needsEscape_at b)%nat.
Proof.
  rewrite needsEscape_at_spec. unfold escape_byte.
  destruct (is_escaped b); reflexivity.
Qed.

Lemma escape_cons (b : byte) (s : list byte) :
  escape (b :: s) = escape_byte b ++ escape s.
Proof. reflexivity. Qed.

Lemma escape_length_bound (s : list byte) :
  (length (escape s) <= 2 * length s)%nat.
Proof.
  induction s as [|b s IH]; [ simpl; lia | ].
  rewrite escape_cons, length_app, escape_byte_length, needsEscape_at_spec.
  destruct (is_escaped b); simpl length; lia.
Qed.

Lemma store_Some (buf : list byte) (n : nat) (b : byte) :
  (n < length buf)%nat → store buf n b = Some (<[n := b]> buf).
Proof. intros Hn. unfold store. case_decide; [ reflexivity | lia ]. Qed.

(** One round of the loop: the backslash is written at [n], and the byte
    either after it or over it. *)
Lemma take_store_byte (buf : list byte) (n : nat) (b : byte) :
  (n + 1 < length buf)%nat →
  take (n + needsEscape_at b + 1) (<[(n + needsEscape_at b)%nat := b]> (<[n := backslash]> buf))
  = take n buf ++ escape_byte b.
Proof.
  intros Hn. rewrite needsEscape_at_spec. unfold escape_byte.
  destruct (is_escaped b).
  - replace (n + 1 + 1)%nat with (S (S n)) by lia.
    replace (n + 1)%nat with (S n) by lia.
    rewrite (take_S_r _ (S n) b)
      by (apply list_lookup_insert_eq; rewrite length_insert; lia).
    rewrite take_insert_ge by lia.
    rewrite (take_S_r _ n backslash) by (apply list_lookup_insert_eq; lia).
    rewrite take_insert_ge by lia.
    rewrite <- app_assoc. reflexivity.
  - replace (n + 0 + 1)%nat with (S n) by lia.
    replace (n + 0)%nat with n by lia.
    rewrite (take_S_r _ n b)
      by (apply list_lookup_insert_eq; rewrite length_insert; lia).
    rewrite !take_insert_ge by lia. reflexivity.
Qed.

(** The loop never writes out of range, leaves the length of the buffer
    alone and has written the escaped bytes after what was there. *)
Lemma quoteString_loop_spec (s : list byte) :
  ∀ (buf : list byte) (n : nat),
    (n + 2 * length s < length buf)%nat →
    ∃ buf',
      quoteString_loop s buf n = Some (buf', (n + length (escape s))%nat)
      ∧ length buf' = length buf
      ∧ take (n + length (escape s)) buf' = take n buf ++ escape s.
Proof.
  induction s as [|b s IH]; intros buf n Hn.
  - exists buf. simpl. rewrite Nat.add_0_r, app_nil_r. auto.
  - simpl length in Hn. simpl quoteString_loop.
    rewrite store_Some by lia. simpl.
    pose proof (needsEscape_at_spec b) as Hb.
    assert (needsEscape_at b <= 1)%nat as Hle
      by (rewrite Hb; destruct (is_escaped b); lia).
    rewrite store_Some by (rewrite length_insert; lia). simpl.
    destruct (IH (<[(n + needsEscape_at b)%nat := b]> (<[n := backslash]> buf))
                 (n + needsEscape_at b + 1)%nat) as (buf' & Hrun & Hlen & Htake).
    { rewrite !length_insert. lia. }
    exists buf'. rewrite escape_cons, length_app, escape_byte_length.
    replace (n + (1 + needsEscape_at b + length (escape s)))%nat
      with (n + needsEscape_at b + 1 + length (escape s))%nat by lia.
    split; [ exact Hrun | ]. split.
    + rewrite Hlen, !length_insert. reflexivity.
    + rewrite Htake, take_store_byte by lia. rewrite <- app_assoc. reflexivity.
Qed.

Lemma bytes_length (s : string) : length (bytes s) = len s.
Proof.
  unfold bytes, len. induction s as [|c s IH]; simpl; [ reflexivity | ].
  rewrite IH. reflexivity.
Qed.

Lemma quoteString_quoted (s : string) : quoteString s = Some (quoted s).
Proof.
  unfold quoteString. destruct (String.eqb_spec s "") as [->|Hne].
  - reflexivity.
  - set (buf0 := replicate (len s * 2 + 2) NUL).
    assert (length buf0 = (len s * 2 + 2)%nat) as Hlen0
      by apply length_replicate.
    rewrite store_Some by lia. simpl.
    destruct (quoteString_loop_spec (bytes s) (<[0%nat := singleQuote]> buf0) 1)
      as (buf' & Hrun & Hlen & Htake).
    { rewrite length_insert, bytes_length. lia. }
    rewrite Hrun. simpl.
    pose proof (escape_length_bound (bytes s)) as Hbound.
    rewrite bytes_length in Hbound.
    rewrite length_insert in Hlen.
    rewrite store_Some by lia. simpl.
    unfold slice_to. rewrite length_insert.
    case_decide; [ | lia ]. simpl. unfold quoted. f_equal. f_equal.
    replace (S (length (escape (bytes s)) + 1))
      with (S (1 + length (escape (bytes s)))) by lia.
    rewrite (take_S_r _ _ singleQuote) by (apply list_lookup_insert_eq; lia).
    rewrite take_insert_ge by lia. rewrite Htake.
    assert (take 1 (<[0%nat := singleQuote]> buf0) = [singleQuote]) as ->.
    { unfold buf0. replace (len s * 2 + 2)%nat with (S (len s * 2 + 1)) by lia.
      reflexivity. }
    reflexivity.
Qed.




(** ** Rendering *)

Lemma append_String (c : ascii) (s t : string) :
  String c s +:+ t = String c (s +:+ t).
Proof. reflexivity. Qed.

Lemma append_nil_l (s : string) : "" +:+ s = s.
Proof. reflexivity. Qed.

Lemma append_nil_r (s : string) : s +:+ "" = s.
Proof.
  induction s as [|c s IH]; [ reflexivity | ].
  rewrite append_String, IH. reflexivity.
Qed.

Lemma append_assoc (s t u : string) : (s +:+ t) +:+ u = s +:+ t +:+ u.
Proof.
  induction s as [|c s IH]; [ reflexivity | ].
  rewrite !append_String, IH. reflexivity.
Qed.

Create Rewrite HintDb strings.
#[local] Hint Rewrite append_String append_nil_l append_nil_r append_assoc
  : strings.

(** Texts built by a [strings.Builder]: unfold the writes, reassociate. *)
Ltac builder_text :=
  unfold WriteByte, WriteString, parenthesized;
  simpl;
  autorewrite with strings;
  try reflexivity.

Lemma GetSQL_built (b : builderFunc) (p : priority) (isBool : bool) (scope : scope) :
  GetSQL (built b p isBool) scope = b scope.
Proof. reflexivity. Qed.

Lemma GetSQL_literal (e : expression) (scope : scope) :
  sql e ≠ ""%string → GetSQL e scope = Some (sql e, None).
Proof.
  intros Hne. unfold GetSQL.
  destruct (String.eqb_spec (sql e) ""); [ contradiction | reflexivity ].
Qed.

Lemma getSQL_Expr (e : expression) (scope : scope) (s : string) :
  GetSQL e scope = Some (s, None) →
  getSQL scope (Expr e) = Some (s, prio e, None).
Proof. intros He. simpl. rewrite He. reflexivity. Qed.

(** What a binary operator node renders when both operands render. *)
Lemma binaryOperation_GetSQL (e : expression) (operator : string) (v : value)
    (p : priority) (isBool : bool) (scope : scope)
    (leftSql rightSql : string) (rightPriority : priority) :
  GetSQL e scope = Some (leftSql, None) →
  getSQL scope v = Some (rightSql, rightPriority, None) →
  GetSQL (binaryOperation e operator v p isBool) scope
  = Some (parenthesized (prio e >? p) leftSql +:+ " " +:+ operator +:+ " "
          +:+ parenthesized (rightPriority >=? p) rightSql, None).
Proof.
  intros Hl Hr. unfold binaryOperation. rewrite GetSQL_built, Hl. simpl.
  rewrite Hr. simpl.
  destruct (prio e >? p), (rightPriority >=? p); builder_text.
Qed.

(** What a unary operator node renders over an operand without literal text. *)
Lemma prefixSuffixExpression_GetSQL_builder (e : expression)
    (prefix suffix : string) (p : priority) (isBool : bool) (scope : scope)
    (exprSql : string) :
  sql e = ""%string →
  GetSQL e scope = Some (exprSql, None) →
  GetSQL (prefixSuffixExpression e prefix suffix p isBool) scope
  = Some (prefix +:+ parenthesized (prio e >? p) exprSql +:+ suffix, None).
Proof.
  intros Hsql He. unfold prefixSuffixExpression. rewrite Hsql. simpl.
  rewrite GetSQL_built, He. simpl.
  destruct (prio e >? p); builder_text.
Qed.

(** Over an operand with literal text the unary operator node is a
    literal again, the operand as it is between prefix and suffix. *)
Lemma prefixSuffixExpression_literal (e : expression)
    (prefix suffix : string) (p : priority) (isBool : bool) :
  sql e ≠ ""%string →
  prefixSuffixExpression e prefix suffix p isBool
  = {| sql := prefix +:+ sql e +:+ suffix; builder := None; prio := p;
       isTrue := false; isFalse := false; isBool := isBool |}.
Proof.
  intros Hne. unfold prefixSuffixExpression.
  destruct (String.eqb_spec (sql e) ""); [ contradiction | reflexivity ].
Qed.

(** C2. A binary operator node built with result precedence [p] over
    operands that render puts the left text in parentheses exactly when
    the left precedence is strictly greater than [p] and the right text
    exactly when the right precedence is greater than or equal to [p];
    and over operands [a], [b], [c] of precedence 0, [a.Add(b).Mul(c)]
    renders [(a + b) * c], [a.Mul(b).Add(c)] renders [a * b + c] and
    [a.Sub(b.Sub(c))] renders [a - (b - c)]. *)
Theorem binaryOperation_parenthesization (scope : scope) :
  (∀ e operator v p isBool leftSql rightSql rightPriority,
     GetSQL e scope = Some (leftSql, None) →
     getSQL scope v = Some (rightSql, rightPriority, None) →
     GetSQL (binaryOperation e operator v p isBool) scope
     = Some (parenthesized (bool_decide (prio e > p)) leftSql
             +:+ " " +:+ operator +:+ " "
             +:+ parenthesized (bool_decide (rightPriority >= p)) rightSql,
             None))
  ∧ (∀ a b c sa sb sc,
       prio a = 0 → prio b = 0 → prio c = 0 →
       GetSQL a scope = Some (sa, None) →
       GetSQL b scope = Some (sb, None) →
       GetSQL c scope = Some (sc, None) →
       GetSQL (Mul (Add a (Expr b)) (Expr c)) scope
       = Some ("(" +:+ sa +:+ " + " +:+ sb +:+ ") * " +:+ sc, None)
       ∧ GetSQL (Add (Mul a (Expr b)) (Expr c)) scope
         = Some (sa +:+ " * " +:+ sb +:+ " + " +:+ sc, None)
       ∧ GetSQL (Sub a (Expr (Sub b (Expr c)))) scope
         = Some (sa +:+ " - (" +:+ sb +:+ " - " +:+ sc +:+ ")", None)).
Proof.
  split.
  - intros e operator v p isBool l r rp Hl Hr.
    rewrite (binaryOperation_GetSQL _ _ _ _ _ _ _ _ _ Hl Hr).
    replace (bool_decide (prio e > p)) with (prio e >? p)
      by (case_bool_decide; lia).
    replace (bool_decide (rp >= p)) with (rp >=? p)
      by (case_bool_decide; lia).
    reflexivity.
  - intros a b c sa sb sc Pa Pb Pc Ha Hb Hc.
    pose proof (getSQL_Expr _ _ _ Hb) as Vb.
    pose proof (getSQL_Expr _ _ _ Hc) as Vc.
    rewrite Pb in Vb. rewrite Pc in Vc.
    repeat split.
    + unfold Mul, Add.
      pose proof (binaryOperation_GetSQL a "+" _ 7 false _ _ _ _ Ha Vb) as Hab.
      rewrite (binaryOperation_GetSQL _ "*" _ 6 false _ _ _ _ Hab Vc).
      rewrite Pa. builder_text.
    + unfold Mul, Add.
      pose proof (binaryOperation_GetSQL a "*" _ 6 false _ _ _ _ Ha Vb) as Hab.
      rewrite (binaryOperation_GetSQL _ "+" _ 7 false _ _ _ _ Hab Vc).
      rewrite Pa. builder_text.
    + unfold Sub.
      pose proof (binaryOperation_GetSQL b "-" _ 7 false _ _ _ _ Hb Vc) as Hbc.
      apply getSQL_Expr in Hbc.
      rewrite (binaryOperation_GetSQL a "-" _ 7 false _ _ _ _ Ha Hbc).
      rewrite Pa, Pb. builder_text.
Qed.

Lemma binaryOperation_parenthesization_witness :
  GetSQL (binaryOperation (Add (column "a") (Expr (column "b"))) "*"
            (Expr (Add (column "b") (Expr (column "c")))) 6 false) noTables
  = Some ("(a + b) * (b + c)"%string, None)
  ∧ GetSQL (Mul (Add (column "a") (Expr (column "b"))) (Expr (column "c"))) noTables
    = Some ("(a + b) * c"%string, None)
  ∧ GetSQL (Add (Mul (column "a") (Expr (column "b"))) (Expr (column "c"))) noTables
    = Some ("a * b + c"%string, None)
  ∧ GetSQL (Sub (column "a") (Expr (Sub (column "b") (Expr (column "c"))))) noTables
    = Some ("a - (b - c)"%string, None).
Proof.
  destruct (binaryOperation_parenthesization noTables) as [general examples].
  split.
  - apply (general (Add (column "a") (Expr (column "b"))) "*"%string
             (Expr (Add (column "b") (Expr (column "c")))) 6 false
             "a + b"%string "b + c"%string 7); reflexivity.
  - apply (examples (column "a") (column "b") (column "c") "a" "b" "c")%string;
      reflexivity.
Defined.

(** ** Boolean short cuts *)

Lemma produced_constant (e : expression) :
  produced e →
  (isTrue e = true → e = True_) ∧ (isFalse e = true → e = False_).
Proof.
  intros [ | | s | s p i | b p i | e' prefix suffix p i ];
    try (split; (reflexivity || discriminate)).
  unfold prefixSuffixExpression.
  destruct (negb (String.eqb (sql e') "")); split; discriminate.
Qed.

Lemma toBooleanExpression_unclassified (x : value) :
  classified x = false → toBooleanExpression x = None.
Proof.
  destruct x as [ | | |e| | | | | | | | | ]; try reflexivity.
  simpl. destruct (isTrue e), (isFalse e), (isBool e); (reflexivity || discriminate).
Qed.

(** C3. For every operand [x], [False().And(x)] renders the constant 0
    and [True().Or(x)] the constant 1. When [x] is a node of the package
    that is definitely true, definitely false or flagged boolean,
    [True().And(x)] and [False().Or(x)] render what [x] renders. When [x]
    is not so classified, [True().And(x)] and [False().Or(x)] are the
    generic binary nodes. *)
Theorem And_Or_constant_folding (x : value) (scope : scope) :
  GetSQL (And False_ x) scope = Some ("0"%string, None)
  ∧ GetSQL (Or True_ x) scope = Some ("1"%string, None)
  ∧ (∀ e, x = Expr e → produced e → classified x = true →
       GetSQL (And True_ x) scope = GetSQL e scope
       ∧ GetSQL (Or False_ x) scope = GetSQL e scope)
  ∧ (classified x = false →
       And True_ x = binaryOperation True_ "AND" x 14 true
       ∧ Or False_ x = binaryOperation False_ "OR" x 16 true).
Proof.
  split; [ reflexivity | ]. split; [ reflexivity | ]. split.
  - intros e -> He Hx. destruct (produced_constant e He) as [Ht Hf].
    unfold And, Or. simpl in *.
    destruct (isTrue e) eqn:Et.
    { rewrite (Ht eq_refl). split; reflexivity. }
    destruct (isFalse e) eqn:Ef.
    { rewrite (Hf eq_refl). split; reflexivity. }
    simpl in Hx. rewrite Hx. split; reflexivity.
  - intros Hx. unfold And, Or. simpl.
    rewrite (toBooleanExpression_unclassified x Hx). split; reflexivity.
Qed.

Lemma And_Or_constant_folding_witness :
  GetSQL (And True_ (Expr (Equals (column "a") (Int 1)))) noTables
  = Some ("a = 1"%string, None)
  ∧ GetSQL (Or False_ (Expr False_)) noTables = Some ("0"%string, None)
  ∧ And True_ (Int 5) = binaryOperation True_ "AND" (Int 5) 14 true.
Proof.
  destruct (And_Or_constant_folding (Expr (Equals (column "a") (Int 1))) noTables)
    as (_ & _ & folded & _).
  destruct (And_Or_constant_folding (Expr False_) noTables)
    as (_ & _ & folded' & _).
  destruct (And_Or_constant_folding (Int 5) noTables) as (_ & _ & _ & generic).
  split; [ | split ].
  - rewrite (proj1 (folded _ eq_refl (produced_built _ _ _) eq_refl)).
    reflexivity.
  - rewrite (proj2 (folded' _ eq_refl produced_False eq_refl)). reflexivity.
  - apply generic. reflexivity.
Defined.

(** ** Raw fragments as operands *)

(** As either operand of a binary operator of the precedence table, a raw
    fragment is put in parentheses. *)
Lemma Raw_operand_of_binary_operator (fragment : string) (e : expression)
    (operator : string) (v : value) (p : priority) (isBool : bool)
    (scope : scope) (s : string) (sp : priority) :
  fragment ≠ ""%string → p < 99 →
  (getSQL scope v = Some (s, sp, None) →
   GetSQL (binaryOperation (Raw fragment) operator v p isBool) scope
   = Some ("(" +:+ fragment +:+ ") " +:+ operator +:+ " "
           +:+ parenthesized (sp >=? p) s, None))
  ∧ (GetSQL e scope = Some (s, None) →
     GetSQL (binaryOperation e operator (Expr (Raw fragment)) p isBool) scope
     = Some (parenthesized (prio e >? p) s +:+ " " +:+ operator
             +:+ " (" +:+ fragment +:+ ")", None)).
Proof.
  intros Hne Hp.
  assert (GetSQL (Raw fragment) scope = Some (fragment, None)) as Hraw
    by (apply GetSQL_literal; exact Hne).
  split; intros Hs.
  - rewrite (binaryOperation_GetSQL _ _ _ _ _ _ _ _ _ Hraw Hs).
    replace (prio (Raw fragment) >? p) with true by (simpl; lia).
    builder_text.
  - rewrite (binaryOperation_GetSQL _ _ _ _ _ _ _ _ _ Hs (getSQL_Expr _ _ _ Hraw)).
    replace (prio (Raw fragment) >=? p) with true by (simpl; lia).
    builder_text.
Qed.

(** As the operand of a unary operator a raw fragment is never put in
    parentheses, whatever the precedence of the operator. *)
Lemma Raw_operand_never_parenthesized (fragment prefix suffix : string)
    (p : priority) (isBool : bool) (scope : scope) :
  fragment ≠ ""%string →
  GetSQL (prefixSuffixExpression (Raw fragment) prefix suffix p isBool) scope
  = Some (prefix +:+ fragment +:+ suffix, None).
Proof.
  intros Hne. rewrite prefixSuffixExpression_literal by exact Hne.
  apply GetSQL_literal. simpl.
  destruct prefix; [ | discriminate ]. rewrite append_nil_l.
  destruct fragment; [ contradiction | discriminate ].
Qed.

(** C4. As the operand of a unary operator a raw fragment is not put in
    parentheses: [Raw("a OR b").IsNull()] renders [a OR b IS NULL] and
    [Raw("a OR b").Not()] renders [NOT a OR b], while the same text from
    a render function, with the same precedence 99, gets them. *)
Theorem Raw_operand_of_unary_operator (scope : scope) :
  GetSQL (IsNull (Raw "a OR b")) scope = Some ("a OR b IS NULL"%string, None)
  ∧ GetSQL (Not (Raw "a OR b")) scope = Some ("NOT a OR b"%string, None)
  ∧ GetSQL (IsNull (built (λ _, Some ("a OR b"%string, None)) 99 false)) scope
    = Some ("(a OR b) IS NULL"%string, None).
Proof. repeat split. Qed.

(** ** Membership over no values, and over nil pointers *)

(** C5. When the values of [x.In(...)] flatten to no value at all, the
    result is the constant false, which renders 0, and that of
    [x.NotIn(...)] is the constant true, which renders 1. *)
Theorem In_NotIn_of_no_values (x : expression) (values : list value)
    (scope : scope) :
  expandSliceValues values = Some [] →
  In x values = Some False_
  ∧ NotIn x values = Some True_
  ∧ (In x values ≫= λ e, GetSQL e scope) = Some ("0"%string, None)
  ∧ (NotIn x values ≫= λ e, GetSQL e scope) = Some ("1"%string, None).
Proof.
  intros Hflat. unfold In, NotIn. rewrite Hflat. repeat split.
Qed.

Lemma In_NotIn_of_no_values_witness :
  (In (column "x") [] ≫= λ e, GetSQL e noTables) = Some ("0"%string, None)
  ∧ (In (column "x") emptyNested ≫= λ e, GetSQL e noTables)
    = Some ("0"%string, None)
  ∧ (NotIn (column "x") emptyNested ≫= λ e, GetSQL e noTables)
    = Some ("1"%string, None).
Proof.
  split; [ | split ].
  - apply (In_NotIn_of_no_values (column "x") [] noTables). reflexivity.
  - apply (In_NotIn_of_no_values (column "x") emptyNested noTables). reflexivity.
  - apply (In_NotIn_of_no_values (column "x") emptyNested noTables). reflexivity.
Defined.

Lemma expandSliceValue_Slice (elems : list value) :
  expandSliceValue (Other (Slice elems)) = expandSliceValue_elems [] elems.
Proof. reflexivity. Qed.

Lemma expandSliceValue_elems_panics (elems : list value) :
  ∀ (result : list value) (v : value),
    v ∈ elems → expandSliceValue v = None →
    expandSliceValue_elems result elems = None.
Proof.
  induction elems as [|elem elems IH]; intros result v Hin Hv.
  - apply elem_of_nil in Hin. contradiction.
  - simpl. destruct (expandSliceValue elem) as [expanded|] eqn:Helem;
      [ | reflexivity ].
    apply elem_of_cons in Hin as [-> | Hin]; [ congruence | ].
    simpl. exact (IH _ v Hin Hv).
Qed.

Lemma expandSliceValues_loop_panics (values : list value) :
  ∀ (result : list value) (v : value),
    v ∈ values → expandSliceValue v = None →
    expandSliceValues_loop result values = None.
Proof.
  induction values as [|value values IH]; intros result v Hin Hv.
  - apply elem_of_nil in Hin. contradiction.
  - simpl. destruct (expandSliceValue value) as [expanded|] eqn:Hvalue;
      [ | reflexivity ].
    apply elem_of_cons in Hin as [-> | Hin]; [ congruence | ].
    simpl. exact (IH _ v Hin Hv).
Qed.

Lemma expandSliceValue_nil_pointer (v : value) :
  holdsNilPointer v → expandSliceValue v = None.
Proof.
  induction 1 as [ | v _ IH | elems v Hin _ IH ].
  - reflexivity.
  - exact IH.
  - rewrite expandSliceValue_Slice.
    exact (expandSliceValue_elems_panics elems [] v Hin IH).
Qed.

(** C6. A call of [In] or [NotIn] with a value that holds a nil pointer,
    at any depth, panics: flattening reaches [Interface()] on the zero
    Value. *)
Theorem In_NotIn_nil_pointer_panics (x : expression) (values : list value)
    (v : value) :
  v ∈ values → holdsNilPointer v →
  In x values = None ∧ NotIn x values = None.
Proof.
  intros Hin Hv. unfold In, NotIn, expandSliceValues.
  rewrite (expandSliceValues_loop_panics values [] v Hin
             (expandSliceValue_nil_pointer v Hv)).
  split; reflexivity.
Qed.

Lemma In_NotIn_nil_pointer_panics_witness :
  In (column "x") [Other (Ptr None)] = None
  ∧ NotIn (column "x")
      [Int 1; Other (Slice [Int 2; Other (Ptr (Some (Other (Ptr None))))])]
    = None.
Proof.
  split.
  - apply (In_NotIn_nil_pointer_panics (column "x") [Other (Ptr None)]
             (Other (Ptr None))).
    + apply list_elem_of_here.
    + constructor.
  - apply (In_NotIn_nil_pointer_panics (column "x") _
             (Other (Slice [Int 2; Other (Ptr (Some (Other (Ptr None))))]))).
    + apply list_elem_of_further, list_elem_of_here.
    + apply (holds_element _ (Other (Ptr (Some (Other (Ptr None)))))).
      * apply list_elem_of_further, list_elem_of_here.
      * repeat constructor.
Defined.

(** ** Double negation *)

(** [e.Not().Not()] over a literal [a] renders [NOT NOT a], which is not
    the text [NOT (NOT a)]; so it does over the comparison [a = 1]. *)
Lemma Not_Not_counterexample :
  isTrue (booleanColumn "a") = false ∧ isFalse (booleanColumn "a") = false
  ∧ GetSQL (booleanColumn "a") noTables = Some ("a"%string, None)
  ∧ GetSQL (Not (Not (booleanColumn "a"))) noTables
    = Some ("NOT NOT a"%string, None)
  ∧ GetSQL (Not (Not (booleanColumn "a"))) noTables
    ≠ Some ("NOT (NOT a)"%string, None)
  ∧ GetSQL (Equals (column "a") (Int 1)) noTables = Some ("a = 1"%string, None)
  ∧ GetSQL (Not (Not (Equals (column "a") (Int 1)))) noTables
    = Some ("NOT NOT a = 1"%string, None)
  ∧ GetSQL (Not (Not (Equals (column "a") (Int 1)))) noTables
    ≠ Some ("NOT (NOT a = 1)"%string, None).
Proof. repeat split; discriminate. Qed.

Lemma Not_not_constant (e : expression) :
  isTrue e = false → isFalse e = false →
  Not e = prefixSuffixExpression e "NOT " "" 13 true.
Proof. intros Ht Hf. unfold Not. rewrite Ht, Hf. reflexivity. Qed.

Lemma prefixSuffixExpression_flags (e : expression) (prefix suffix : string)
    (p : priority) (isBool : bool) :
  let r := prefixSuffixExpression e prefix suffix p isBool in
  isTrue r = false ∧ isFalse r = false ∧ prio r = p.
Proof.
  unfold prefixSuffixExpression.
  destruct (negb (String.eqb (sql e) "")); repeat split.
Qed.

(** C7, amended. For a node [e] that is neither definitely true nor
    definitely false and renders [s], and that is not a literal of
    precedence above 13, [e.Not().Not()] renders [NOT NOT s], with [s] in
    parentheses exactly when the precedence of [e] is above 13: double
    negation is not simplified and the inner [NOT] is never put in
    parentheses. *)
Theorem Not_Not_rendering (e : expression) (scope : scope) (s : string) :
  isTrue e = false → isFalse e = false →
  GetSQL e scope = Some (s, None) →
  sql e = ""%string ∨ prio e <= 13 →
  GetSQL (Not (Not e)) scope
  = Some ("NOT NOT " +:+ parenthesized (bool_decide (prio e > 13)) s, None).
Proof.
  intros Ht Hf He Hshape.
  rewrite (Not_not_constant e Ht Hf).
  destruct (prefixSuffixExpression_flags e "NOT " "" 13 true) as (Ht' & Hf' & Hp').
  rewrite (Not_not_constant _ Ht' Hf').
  destruct (String.eqb_spec (sql e) "") as [Hsql | Hsql].
  - pose proof (prefixSuffixExpression_GetSQL_builder e "NOT " "" 13 true
                  scope s Hsql He) as Hinner.
    assert (sql (prefixSuffixExpression e "NOT " "" 13 true) = ""%string)
      as Hsql' by (unfold prefixSuffixExpression; rewrite Hsql; reflexivity).
    rewrite (prefixSuffixExpression_GetSQL_builder
               (prefixSuffixExpression e "NOT " "" 13 true) "NOT " "" 13 true
               scope _ Hsql' Hinner).
    rewrite Hp'.
    replace (bool_decide (prio e > 13)) with (prio e >? 13)
      by (case_bool_decide; lia).
    builder_text.
  - destruct Hshape as [Hempty | Hprio]; [ contradiction | ].
    rewrite (GetSQL_literal e scope Hsql) in He. injection He as <-.
    rewrite (prefixSuffixExpression_literal e _ _ _ _ Hsql).
    rewrite prefixSuffixExpression_literal by (simpl; discriminate).
    rewrite GetSQL_literal by (simpl; discriminate).
    replace (bool_decide (prio e > 13)) with false
      by (case_bool_decide; [ lia | reflexivity ]).
    builder_text.
Qed.

Lemma Not_Not_rendering_witness :
  GetSQL (Not (Not (booleanColumn "a"))) noTables
  = Some ("NOT NOT a"%string, None)
  ∧ GetSQL (Not (Not (Or (Equals (column "a") (Int 1)) (Expr (column "b")))))
      noTables
    = Some ("NOT NOT (a = 1 OR b)"%string, None).
Proof.
  split.
  - apply (Not_Not_rendering (booleanColumn "a") noTables "a");
      try reflexivity. right. simpl. lia.
  - apply (Not_Not_rendering (Or (Equals (column "a") (Int 1)) (Expr (column "b")))
             noTables "a = 1 OR b");
      try reflexivity. left. reflexivity.
Defined.

(** ** Literal text or render function *)

(** No node that the package returns has both its literal text and its
    render function, and apart from the literals of the empty text, of
    which [Raw ""] is one, each has one of them. *)
Lemma produced_exactlyOneSet (e : expression) :
  produced e →
  (literalSet e && builderSet e = false)
  ∧ ((∀ priority isBool, e ≠ staticExpression "" priority isBool) →
     exactlyOneSet e = true).
Proof.
  assert (∀ s p i, (∀ priority isBool,
                      staticExpression s p i ≠ staticExpression "" priority isBool) →
                   exactlyOneSet (staticExpression s p i) = true) as Hstatic.
  { intros s p i Hne. unfold exactlyOneSet, literalSet. simpl.
    destruct (String.eqb_spec s "") as [-> | Hs]; [ | reflexivity ].
    exfalso. exact (Hne p i eq_refl). }
  intros [ | | s | s p i | b p i | e' prefix suffix p i ];
    try (split; [ | intros _ ]; reflexivity).
  - split; [ apply andb_false_r | apply (Hstatic s 99 false) ].
  - split; [ apply andb_false_r | apply Hstatic ].
  - unfold prefixSuffixExpression.
    destruct (String.eqb_spec (sql e') "") as [Heq | Hs];
      [ split; [ | intros _ ]; reflexivity | ].
    split; [ apply andb_false_r | intros _ ].
    unfold exactlyOneSet, literalSet. simpl.
    destruct (String.eqb_spec (prefix +:+ sql e' +:+ suffix) "") as [Heq | ];
      [ | reflexivity ].
    exfalso. destruct prefix; [ | discriminate ].
    rewrite append_nil_l in Heq. destruct (sql e'); [ | discriminate ].
    contradiction.
Qed.

(** [And], [Or] and [Not] stay within these nodes. *)
Lemma toBooleanExpression_produced (other : value) (exp : expression) :
  (∀ x, other = Expr x → produced x) →
  toBooleanExpression other = Some exp → produced exp.
Proof.
  intros Hother. destruct other as [ | | |x| | | | | | | | | ]; try discriminate.
  specialize (Hother x eq_refl). simpl.
  destruct (isTrue x); [ intros [= <-]; constructor | ].
  destruct (isFalse x); [ intros [= <-]; constructor | ].
  destruct (isBool x); [ intros [= <-]; exact Hother | discriminate ].
Qed.

Lemma And_Or_Not_produced (e : expression) (other : value) :
  produced e → (∀ x, other = Expr x → produced x) →
  produced (And e other) ∧ produced (Or e other) ∧ produced (Not e).
Proof.
  intros He Hother. unfold And, Or, Not. repeat split.
  - destruct (isFalse e); [ exact He | ].
    destruct (isTrue e); [ | apply produced_built ].
    destruct (toBooleanExpression other) as [exp|] eqn:Hexp;
      [ exact (toBooleanExpression_produced other exp Hother Hexp)
      | apply produced_built ].
  - destruct (isTrue e); [ exact He | ].
    destruct (isFalse e); [ | apply produced_built ].
    destruct (toBooleanExpression other) as [exp|] eqn:Hexp;
      [ exact (toBooleanExpression_produced other exp Hother Hexp)
      | apply produced_built ].
  - destruct (isTrue e); [ constructor | ].
    destruct (isFalse e); constructor.
Qed.

(** C8. The raw fragment of the empty text is a node with neither a
    literal text nor a render function, and rendering it calls the nil
    func; so is every unary operator over it. *)
Theorem Raw_empty_has_neither (scope : scope) :
  produced (Raw "")
  ∧ literalSet (Raw "") = false
  ∧ builderSet (Raw "") = false
  ∧ exactlyOneSet (Raw "") = false
  ∧ GetSQL (Raw "") scope = None
  ∧ GetSQL (IsNull (Raw "")) scope = None.
Proof. repeat split. constructor. Qed.

(** ** Errors of nested calls *)

Lemma clean_orReturn {A} (r : option (A * option error)) (k : A → option result) :
  (∀ a, clean (k a)) → clean (orReturn r k).
Proof.
  intros Hk s err. unfold orReturn.
  destruct r as [[a [e|]]|]; simpl; intros Heq.
  - injection Heq as <- _. reflexivity.
  - exact (Hk a s err Heq).
  - discriminate.
Qed.

Lemma clean_success (s : string) : clean (Some (s, None)).
Proof. intros s' err Heq. discriminate. Qed.

(** The error of the nested call at hand is the result. *)
Ltac propagate :=
  let Herr := fresh "Herr" in
  unfold propagated; intros ? ? Herr;
  first [ rewrite Herr; reflexivity
        | simpl; rewrite Herr; reflexivity
        | discriminate Herr ].

Ltac clean_render :=
  repeat first
    [ apply clean_success
    | apply clean_orReturn; intros ? ].

Lemma binaryOperation_clean (e : expression) (operator : string) (v : value)
    (p : priority) (isBool : bool) (scope : scope) :
  clean (GetSQL (binaryOperation e operator v p isBool) scope).
Proof.
  unfold binaryOperation. rewrite GetSQL_built.
  apply clean_orReturn. intros leftSql.
  apply clean_orReturn. intros [rightSql rightPriority].
  apply clean_success.
Qed.

Lemma commaValues_with_clean
    (marshal : value → option (string * priority * option error))
    (values : list value) :
  clean (commaValues_with marshal values).
Proof.
  unfold commaValues_with. generalize 0%nat, ""%string.
  induction values as [|item values IH]; intros i sql.
  - apply clean_success.
  - simpl. apply clean_orReturn. intros [itemSql itemPriority]. apply IH.
Qed.

Lemma commaValues_with_propagated
    (marshal : value → option (string * priority * option error))
    (before : list value) (item : value) (after : list value) :
  Forall (λ v, ∃ s p, marshal v = Some (s, p, None)) before →
  propagated (marshal item) (commaValues_with marshal (before ++ item :: after)).
Proof.
  unfold commaValues_with. generalize 0%nat, ""%string.
  induction before as [|v before IH]; intros i sql Hbefore.
  - simpl. propagate.
  - apply Forall_cons in Hbefore as [(s & p & Hv) Hbefore].
    simpl. rewrite Hv. simpl. apply IH. exact Hbefore.
Qed.

Lemma getBuilder_clean (e : expression) (single : booleanFunc)
    (joiner : joinerFunc) (values : list value) (scope : scope) :
  (∀ v, clean (GetSQL (single v) scope)) →
  clean (getBuilder e single joiner values scope).
Proof.
  intros Hsingle. unfold getBuilder.
  destruct values as [|v [|v' values]].
  - clean_render.
  - destruct v; try apply Hsingle. clean_render.
  - clean_render.
Qed.

Lemma getBuilder_membershipPropagates (scope : scope) (e : expression)
    (operator : string) (joiner : joinerFunc) (flat : list value) :
  membershipPropagates scope e flat
    (getBuilder e (λ other, binaryOperation e operator other 11 true)
       joiner flat scope).
Proof.
  unfold membershipPropagates. repeat apply conj.
  - intros selectStatus ->. unfold getBuilder. propagate.
  - intros v -> Hv.
    assert (getBuilder e (λ other, binaryOperation e operator other 11 true)
              joiner [v] scope
            = GetSQL (binaryOperation e operator v 11 true) scope) as ->.
    { unfold getBuilder. destruct v; try reflexivity.
      exfalso. exact (Hv _ eq_refl). }
    unfold binaryOperation. rewrite GetSQL_built. split.
    + propagate.
    + intros exprSql He. rewrite He. propagate.
  - intros before item after -> Hlen Hbefore text err Hitem.
    assert (commaValues scope (before ++ item :: after)
            = Some (""%string, Some err)) as Hcomma.
    { exact (commaValues_with_propagated (getSQL scope) before item after
               Hbefore text err Hitem). }
    unfold getBuilder.
    destruct (before ++ item :: after) as [|v [|v' rest]] eqn:Hflat.
    + destruct before; discriminate.
    + simpl in Hlen. contradiction.
    + rewrite Hcomma. reflexivity.
  - intros valuesSql [-> | [Hlen Hvalues]]; unfold getBuilder.
    + propagate.
    + destruct flat as [|v [|v' rest]];
        [ | contradiction | ]; rewrite Hvalues; propagate.
  - apply getBuilder_clean. intros v. apply binaryOperation_clean.
Qed.

(** C9. An error of a nested render or marshal call is what the composing
    operation returns, with the empty text: for a binary operator (the
    left operand, then the right one), a comma list (the first item that
    fails), a function call (its argument list), a range (the operand,
    the lower bound, the upper bound) and a membership (the subquery, the
    value list, the operand; over a single value it is the comparison).
    None of them returns a text with an error. The nodes that [In] and
    [NotIn] return over values that flatten to at least one value do so:
    the error of the select statement, of the operand, of the single
    value or of the first value of the list that fails is the error that
    the node renders, with the empty text. *)
Theorem nested_errors_propagate (scope : scope) :
  (∀ e operator v p isBool,
     let r := GetSQL (binaryOperation e operator v p isBool) scope in
     propagated (GetSQL e scope) r
     ∧ (∀ leftSql, GetSQL e scope = Some (leftSql, None) →
                   propagated (getSQL scope v) r)
     ∧ clean r)
  ∧ (∀ before item after,
       let r := commaValues scope (before ++ item :: after) in
       (Forall (λ v, ∃ s p, getSQL scope v = Some (s, p, None)) before →
        propagated (getSQL scope item) r)
       ∧ clean r)
  ∧ (∀ name args,
       let r := GetSQL (function name args) scope in
       propagated (commaValues scope args) r ∧ clean r)
  ∧ (∀ e operator min max,
       let r := GetSQL (buildBetween e operator min max) scope in
       propagated (GetSQL e scope) r
       ∧ (∀ exprSql, GetSQL e scope = Some (exprSql, None) →
                     propagated (getSQL scope min) r)
       ∧ (∀ exprSql minSql minPriority,
            GetSQL e scope = Some (exprSql, None) →
            getSQL scope min = Some (minSql, minPriority, None) →
            propagated (getSQL scope max) r)
       ∧ clean r)
  ∧ (∀ e single joiner values,
       let r := getBuilder e single joiner values scope in
       (∀ selectStatus, values = [SelectFinal selectStatus] →
                        propagated selectStatus r)
       ∧ (∀ v, values = [v] → (∀ selectStatus, v ≠ SelectFinal selectStatus) →
               r = GetSQL (single v) scope)
       ∧ (length values ≠ 1%nat → propagated (commaValues scope values) r)
       ∧ (∀ valuesSql,
            values = [SelectFinal (Some (valuesSql, None))]
            ∨ (length values ≠ 1%nat
               ∧ commaValues scope values = Some (valuesSql, None)) →
            propagated (GetSQL e scope) r))
  ∧ (∀ e values node,
       In e values = Some node ∨ NotIn e values = Some node →
       clean (GetSQL node scope))
  ∧ (∀ e values flat,
       expandSliceValues values = Some flat → flat ≠ [] →
       ∃ member notMember,
         In e values = Some member
         ∧ NotIn e values = Some notMember
         ∧ membershipPropagates scope e flat (GetSQL member scope)
         ∧ membershipPropagates scope e flat (GetSQL notMember scope)).
Proof.
  repeat apply conj.
  - intros e operator v p isBool r. subst r. unfold binaryOperation.
    rewrite GetSQL_built. repeat apply conj.
    + propagate.
    + intros leftSql Hl. rewrite Hl. propagate.
    + apply (binaryOperation_clean e operator v p isBool scope).
  - intros before item after r. subst r. split.
    + apply commaValues_with_propagated.
    + apply commaValues_with_clean.
  - intros name args r. subst r. unfold function. rewrite GetSQL_built. split.
    + propagate.
    + clean_render.
  - intros e operator min max r. subst r. unfold buildBetween.
    rewrite GetSQL_built. repeat apply conj.
    + propagate.
    + intros exprSql He. rewrite He. propagate.
    + intros exprSql minSql minPriority He Hmin. rewrite He. simpl. rewrite Hmin.
      propagate.
    + apply clean_orReturn. intros exprSql.
      apply clean_orReturn. intros [minSql minPriority].
      apply clean_orReturn. intros [maxSql maxPriority].
      apply clean_success.
  - intros e single joiner values r. subst r. unfold getBuilder.
    repeat apply conj.
    + intros selectStatus ->. propagate.
    + intros v -> Hv.
      destruct v; try reflexivity. exfalso. exact (Hv _ eq_refl).
    + intros Hlen. destruct values as [|v [|v' values]];
        [ | contradiction | ]; propagate.
    + intros valuesSql [-> | [Hlen Hvalues]].
      * propagate.
      * destruct values as [|v [|v' values]];
          [ | contradiction | ]; rewrite Hvalues; propagate.
  - intros e values node Hnode. unfold In, NotIn in Hnode.
    destruct (expandSliceValues values) as [flat|]; simpl in Hnode;
      [ | destruct Hnode; discriminate ].
    destruct (length flat =? 0)%nat;
      destruct Hnode as [Hnode | Hnode]; injection Hnode as <-;
      try (intros s err Heq; discriminate).
    + rewrite GetSQL_built. apply getBuilder_clean.
      intros v. apply binaryOperation_clean.
    + rewrite GetSQL_built. apply getBuilder_clean.
      intros v. apply binaryOperation_clean.
  - intros e values flat Hflat Hne. unfold In, NotIn. rewrite Hflat.
    destruct flat as [|v flat]; [ contradiction | ].
    cbn [mbind option_bind length Nat.eqb].
    eexists _, _. split; [ reflexivity | ]. split; [ reflexivity | ].
    rewrite !GetSQL_built. split.
    + apply (getBuilder_membershipPropagates scope e "=").
    + apply (getBuilder_membershipPropagates scope e "<>").
Qed.

Lemma nested_errors_propagate_witness :
  GetSQL (Equals (column "a") failingSelect) noTables
  = Some (""%string, Some "no table"%string)
  ∧ commaValues noTables [Int 1; failingSelect; Int 2]
    = Some (""%string, Some "no table"%string)
  ∧ GetSQL (Between (column "a") (Int 1) failingSelect) noTables
    = Some (""%string, Some "no table"%string)
  ∧ (In (column "a") [Int 1; Other (Slice [failingSelect; Int 2])]
       ≫= λ e, GetSQL e noTables)
    = Some (""%string, Some "no table"%string)
  ∧ (NotIn (column "a") [failingSelect] ≫= λ e, GetSQL e noTables)
    = Some (""%string, Some "no table"%string)
  ∧ (In (Equals (column "a") failingSelect) [Int 1] ≫= λ e, GetSQL e noTables)
    = Some (""%string, Some "no table"%string).
Proof.
  destruct (nested_errors_propagate noTables)
    as (binary & comma & call & range & member & membership & nodes).
  split; [ | split; [ | split; [ | split; [ | split ] ] ] ].
  - destruct (binary (column "a") "="%string failingSelect 11 true)
      as (_ & right & _).
    apply (right "a"%string eq_refl ("SELECT"%string, 0)). reflexivity.
  - destruct (comma [Int 1] failingSelect [Int 2]) as (item & _).
    apply (item ltac:(repeat constructor; eexists _, _; reflexivity)
                ("SELECT"%string, 0)).
    reflexivity.
  - destruct (range (column "a") " BETWEEN "%string (Int 1) failingSelect)
      as (_ & _ & upper & _).
    apply (upper "a"%string "1"%string 0 eq_refl eq_refl ("SELECT"%string, 0)).
    reflexivity.
  - destruct (nodes (column "a") [Int 1; Other (Slice [failingSelect; Int 2])]
                [Int 1; failingSelect; Int 2] eq_refl ltac:(discriminate))
      as (inNode & notInNode & -> & _ & (_ & _ & item & _) & _).
    apply (item [Int 1] failingSelect [Int 2] eq_refl ltac:(discriminate)
             ltac:(repeat constructor; eexists _, _; reflexivity)
             ("SELECT"%string, 0)).
    reflexivity.
  - destruct (nodes (column "a") [failingSelect] [failingSelect]
                eq_refl ltac:(discriminate))
      as (inNode & notInNode & _ & -> & _ & (subquery & _)).
    apply (subquery _ eq_refl "SELECT"%string). reflexivity.
  - destruct (nodes (Equals (column "a") failingSelect) [Int 1] [Int 1]
                eq_refl ltac:(discriminate))
      as (inNode & notInNode & -> & _ & (_ & single & _) & _).
    destruct (single (Int 1) eq_refl ltac:(discriminate)) as (operand & _).
    apply (operand ""%string). reflexivity.
Defined.

(** ** Memberships and ranges under AND and OR *)

(** [In] and [NotIn] over no value return the constants, which carry the
    boolean flag, and the short cuts of [And] and [Or] take them. *)
Lemma In_of_no_values_counterexample :
  (isBool <$> In (column "x") []) = Some true
  ∧ (isBool <$> NotIn (column "x") []) = Some true
  ∧ (In (column "x") [] ≫= λ e, GetSQL (And True_ (Expr e)) noTables)
    = Some ("0"%string, None)
  ∧ (In (column "x") [] ≫= λ e,
       GetSQL (binaryOperation True_ "AND" (Expr e) 14 true) noTables)
    = Some ("1 AND 0"%string, None).
Proof. repeat split. Qed.

Lemma pretty_1 : pretty 1 = "1"%string.
Proof. reflexivity. Qed.

Lemma pretty_2 : pretty 2 = "2"%string.
Proof. reflexivity. Qed.

(** C10, amended. The nodes of [Between] and [NotBetween], and those of
    [In] and [NotIn] over values that flatten to at least one value, do
    not carry the boolean flag and are not recognized by
    [toBooleanExpression]; for every [x] that renders [s],
    [True().And(x.Between(1, 2))] renders [1 AND s BETWEEN 1 AND 2] and
    [False().Or(x.Between(1, 2))] renders [0 OR s BETWEEN 1 AND 2]. *)
Theorem membership_and_range_not_folded (x : expression) (scope : scope)
    (s : string) (values : list value) (v : value) (flat : list value) :
  GetSQL x scope = Some (s, None) →
  expandSliceValues values = Some (v :: flat) →
  (∃ node, In x values = Some node
           ∧ isBool node = false ∧ toBooleanExpression (Expr node) = None)
  ∧ (∃ node, NotIn x values = Some node
             ∧ isBool node = false ∧ toBooleanExpression (Expr node) = None)
  ∧ (∀ min max,
       isBool (Between x min max) = false
       ∧ toBooleanExpression (Expr (Between x min max)) = None
       ∧ isBool (NotBetween x min max) = false
       ∧ toBooleanExpression (Expr (NotBetween x min max)) = None)
  ∧ GetSQL (And True_ (Expr (Between x (Int 1) (Int 2)))) scope
    = Some ("1 AND " +:+ s +:+ " BETWEEN 1 AND 2", None)
  ∧ GetSQL (Or False_ (Expr (Between x (Int 1) (Int 2)))) scope
    = Some ("0 OR " +:+ s +:+ " BETWEEN 1 AND 2", None).
Proof.
  intros Hx Hflat.
  assert (GetSQL (Between x (Int 1) (Int 2)) scope
          = Some (s +:+ " BETWEEN 1 AND 2", None)) as Hbetween.
  { unfold Between, buildBetween. rewrite GetSQL_built, Hx. simpl.
    rewrite pretty_1, pretty_2. simpl. reflexivity. }
  split; [ | split; [ | split; [ | split ] ] ].
  - unfold In. rewrite Hflat. simpl. eexists. repeat split.
  - unfold NotIn. rewrite Hflat. simpl. eexists. repeat split.
  - intros min max. repeat split.
  - change (And True_ (Expr (Between x (Int 1) (Int 2))))
      with (binaryOperation True_ "AND" (Expr (Between x (Int 1) (Int 2))) 14 true).
    rewrite (binaryOperation_GetSQL True_ "AND" _ 14 true scope "1" _ 12
               eq_refl (getSQL_Expr _ _ _ Hbetween)).
    builder_text.
  - change (Or False_ (Expr (Between x (Int 1) (Int 2))))
      with (binaryOperation False_ "OR" (Expr (Between x (Int 1) (Int 2))) 16 true).
    rewrite (binaryOperation_GetSQL False_ "OR" _ 16 true scope "0" _ 12
               eq_refl (getSQL_Expr _ _ _ Hbetween)).
    builder_text.
Qed.

Lemma membership_and_range_not_folded_witness :
  GetSQL (And True_ (Expr (Between (column "x") (Int 1) (Int 2)))) noTables
  = Some ("1 AND x BETWEEN 1 AND 2"%string, None)
  ∧ ∃ node, In (column "x") [Other (Slice [Int 1; Int 2])] = Some node
            ∧ isBool node = false ∧ toBooleanExpression (Expr node) = None.
Proof.
  destruct (membership_and_range_not_folded (column "x") noTables "x"
              [Other (Slice [Int 1; Int 2])] (Int 1) [Int 2] eq_refl eq_refl)
    as (member & _ & _ & conjunction & _).
  split; [ exact conjunction | exact member ].
Defined.

(** * Further properties *)

(** ** Induction over what a value holds *)

Lemma value_heldBy_ind (P : value → Prop) :
  (∀ v, (∀ w, heldBy w v → P w) → P v) → ∀ v, P v.
Proof.
  intros step. fix IH 1. intros v. apply step.
  destruct v as [ | | | | | | | | | | | |r];
    try (intros w Hheld; inversion Hheld; fail).
  destruct r as [[u|]| | | | | |elems| | ];
    try (intros w Hheld; inversion Hheld; fail).
  - intros w Hheld. inversion Hheld; subst. apply IH.
  - assert (∀ w, w ∈ elems → P w) as Helems.
    { clear step. induction elems as [|x elems IHelems]; intros w Hin.
      - apply elem_of_nil in Hin. contradiction.
      - apply elem_of_cons in Hin as [-> | Hin];
          [ apply IH | exact (IHelems w Hin) ]. }
    intros w Hheld. inversion Hheld; subst. apply Helems. assumption.
Qed.

(** ** The marshaller on pointers, lists and plain data *)

Lemma getSQL_pointer (scope : scope) (v : value) :
  getSQL scope (Other (Ptr (Some v))) = getSQL scope v.
Proof.
  destruct v as [ | | | | | | | | | | |[[t|]|]|r]; try reflexivity.
  destruct r as [[u|]| | | | | | | | ]; reflexivity.
Qed.

Lemma getSQL_pointerTo (scope : scope) (n : nat) (v : value) :
  getSQL scope (pointerTo n v) = getSQL scope v.
Proof.
  revert v. induction n as [|n IH]; intros v; [ reflexivity | ].
  change (pointerTo (S n) v) with (Other (Ptr (Some (pointerTo n v)))).
  rewrite getSQL_pointer. apply IH.
Qed.

(** X1. For a value that is not of a collaborator (nil, a number, a
    text, a time, a pointer, a list, any value of the default case), a
    pointer is transparent to the marshaller: behind any number of
    non-nil pointers it marshals as it does by itself, with its text,
    precedence and error; and a nil pointer of the default case marshals
    as NULL behind any number of pointers. *)
Theorem getSQL_through_pointers (scope : scope) (n : nat) (v : value) :
  isCollaborator v = false →
  getSQL scope (pointerTo n v) = getSQL scope v
  ∧ getSQL scope (pointerTo n (Other (Ptr None))) = Some ("NULL"%string, 0, None).
Proof.
  intros _.
  split; [ apply getSQL_pointerTo | rewrite getSQL_pointerTo; reflexivity ].
Qed.

Lemma getSQL_through_pointers_witness :
  getSQL noTables (pointerTo 2 (Str "it's")) = Some ("'it\'s'"%string, 0, None)
  ∧ getSQL noTables (pointerTo 3 (Other (Ptr None))) = Some ("NULL"%string, 0, None).
Proof.
  destruct (getSQL_through_pointers noTables 2 (Str "it's") eq_refl) as [-> _].
  destruct (getSQL_through_pointers noTables 3 (Str "it's") eq_refl) as [_ ->].
  split; reflexivity.
Defined.

Lemma commaValues_loop_joined
    (marshal : value → option (string * priority * option error))
    (values : list value) :
  ∀ (texts : list string) (i : nat) (sql : string),
    Forall2 (λ v text, ∃ p, marshal v = Some (text, p, None)) values texts →
    commaValues_loop marshal (S i) sql values
    = Some (sql +:+ foldr (λ text rest, ", " +:+ text +:+ rest) "" texts, None).
Proof.
  induction values as [|v values IH]; intros texts i sql Hall.
  - apply Forall2_nil_inv_l in Hall as ->. simpl. rewrite append_nil_r.
    reflexivity.
  - apply Forall2_cons_inv_l in Hall as (text & texts' & (p & Hv) & Hall & ->).
    simpl. rewrite Hv. simpl. rewrite (IH texts' (S i) _ Hall).
    f_equal. f_equal. autorewrite with strings. reflexivity.
Qed.

Lemma joined_cons (separator text : string) (texts : list string) :
  joined separator (text :: texts)
  = text +:+ foldr (λ t rest, separator +:+ t +:+ rest) "" texts.
Proof.
  revert text. induction texts as [|t texts IH]; intros text.
  - simpl. rewrite append_nil_r. reflexivity.
  - change (joined separator (text :: t :: texts))
      with (text +:+ separator +:+ joined separator (t :: texts)).
    rewrite IH. simpl. autorewrite with strings. reflexivity.
Qed.

Lemma commaValues_with_joined
    (marshal : value → option (string * priority * option error))
    (values : list value) (texts : list string) :
  Forall2 (λ v text, ∃ p, marshal v = Some (text, p, None)) values texts →
  commaValues_with marshal values = Some (joined ", " texts, None).
Proof.
  intros Hall. unfold commaValues_with.
  destruct Hall as [|v text values texts (p & Hv) Hall]; [ reflexivity | ].
  rewrite joined_cons.
  change (commaValues_loop marshal 0 "" (v :: values))
    with ('(itemSql, _) <-? marshal v;
          commaValues_loop marshal 1 ("" +:+ itemSql) values).
  rewrite Hv. simpl.
  apply (commaValues_loop_joined marshal values texts 0 _ Hall).
Qed.

(** X2. When every value marshals, [commaValues] returns their texts with
    a comma and a space between them, nothing before the first or after
    the last, and the empty text for no value; and an array or slice
    marshals as that list in one pair of parentheses, with precedence
    0. *)
Theorem commaValues_joins (scope : scope) (values : list value)
    (texts : list string) :
  Forall2 (λ v text, ∃ p, getSQL scope v = Some (text, p, None)) values texts →
  commaValues scope values = Some (joined ", " texts, None)
  ∧ getSQL scope (Other (Slice values))
    = Some ("(" +:+ joined ", " texts +:+ ")", 0, None).
Proof.
  intros Hall. split.
  - apply commaValues_with_joined. exact Hall.
  - simpl. rewrite (commaValues_with_joined _ _ _ Hall). reflexivity.
Qed.

Lemma commaValues_joins_witness :
  commaValues noTables [Int 1; Str "it's"; Nil] = Some ("1, 'it\'s', NULL"%string, None)
  ∧ getSQL noTables (Other (Slice [])) = Some ("()"%string, 0, None).
Proof.
  split.
  - apply (commaValues_joins noTables [Int 1; Str "it's"; Nil]
             ["1"; "'it\'s'"; "NULL"]%string).
    repeat constructor; exists 0; reflexivity.
  - apply (commaValues_joins noTables [] []). constructor.
Defined.

Lemma Forall_exists_texts (scope : scope) (values : list value) :
  Forall (λ v, ∃ text, getSQL scope v = Some (text, 0, None)) values →
  ∃ texts, Forall2 (λ v text, ∃ p, getSQL scope v = Some (text, p, None))
             values texts.
Proof.
  induction 1 as [|v values (text & Hv) _ (texts & IH)].
  - exists []. constructor.
  - exists (text :: texts). constructor; [ exists 0; exact Hv | exact IH ].
Qed.

Lemma isData_marshals (scope : scope) (v : value) :
  isData v = true → ∃ text, getSQL scope v = Some (text, 0, None).
Proof.
  induction v as [v IH] using value_heldBy_ind. intros Hdata.
  destruct v as [ | n | s | | | | | | | |[t|]|[[t|]|]|r]; try discriminate;
    try (eexists; reflexivity);
    try (eexists; simpl; rewrite quoteString_quoted; reflexivity).
  destruct r as [[u|]| b | n | n | f | s |elems| s | k ]; try discriminate;
    try (eexists; reflexivity);
    try (eexists; simpl; rewrite quoteString_quoted; reflexivity).
  - rewrite getSQL_pointer. apply IH; [ constructor | exact Hdata ].
  - destruct (Forall_exists_texts scope elems) as (texts & Htexts).
    { apply Forall_forall. intros w Hw. apply IH; [ constructor; exact Hw | ].
      simpl in Hdata. rewrite forallb_forall in Hdata.
      apply Hdata, list_elem_of_In, Hw. }
    eexists. simpl. rewrite (commaValues_with_joined _ _ _ Htexts). reflexivity.
Qed.

(** X3. Plain data (nil, numbers, texts, times, pointers to and lists of
    such, with no expression and no value of an unsupported type inside)
    always marshals: no panic, no error, precedence 0. As the right
    operand of an operator of positive precedence its text is therefore
    never put in parentheses. *)
Theorem data_marshals_with_precedence_0 (scope : scope) (v : value) :
  isData v = true →
  ∃ text,
    getSQL scope v = Some (text, 0, None)
    ∧ ∀ e operator p isBool leftSql,
        0 < p → GetSQL e scope = Some (leftSql, None) →
        GetSQL (binaryOperation e operator v p isBool) scope
        = Some (parenthesized (bool_decide (prio e > p)) leftSql
                +:+ " " +:+ operator +:+ " " +:+ text, None).
Proof.
  intros Hdata. destruct (isData_marshals scope v Hdata) as (text & Hv).
  exists text. split; [ exact Hv | ].
  intros e operator p isBool leftSql Hp He.
  rewrite (binaryOperation_GetSQL _ _ _ _ _ _ _ _ _ He Hv).
  replace (0 >=? p) with false by lia.
  replace (bool_decide (prio e > p)) with (prio e >? p)
    by (case_bool_decide; lia).
  reflexivity.
Qed.

(** X4. A value of an unsupported type marshals to the error [invalid type]
    with its kind, the empty text and precedence 0, also behind pointers;
    and a list that holds it after values that marshal gives that error
    with the empty text, not a parenthesized list. *)
Theorem unsupported_type_error (scope : scope) (n : nat) (kind : string)
    (before after : list value) :
  Forall (λ v, ∃ text p, getSQL scope v = Some (text, p, None)) before →
  let unsupported := pointerTo n (Other (Unsupported kind)) in
  getSQL scope unsupported = Some (""%string, 0, Some ("invalid type " +:+ kind))
  ∧ getSQL scope (Other (Slice (before ++ unsupported :: after)))
    = Some (""%string, 0, Some ("invalid type " +:+ kind)).
Proof.
  intros Hbefore unsupported.
  assert (getSQL scope unsupported
          = Some (""%string, 0, Some ("invalid type " +:+ kind))) as Hu.
  { unfold unsupported.
    rewrite getSQL_pointerTo. reflexivity. }
  split; [ exact Hu | ].
  simpl.
  rewrite (commaValues_with_propagated (getSQL scope) before unsupported after
             Hbefore _ _ Hu).
  reflexivity.
Qed.

Lemma unsupported_type_error_witness :
  getSQL noTables (Other (Slice [Int 1; Other (Ptr (Some (Other (Unsupported "chan")))); Int 2]))
  = Some (""%string, 0, Some "invalid type chan"%string).
Proof.
  apply (unsupported_type_error noTables 1 "chan" [Int 1] [Int 2]).
  repeat constructor. eexists _, _. reflexivity.
Defined.

(** ** Quoted literals *)

Lemma scanLiteral_escape (s rest : list byte) :
  scanLiteral (escape s ++ singleQuote :: rest) = Some (s, rest).
Proof.
  induction s as [|b s IH]; [ reflexivity | ].
  rewrite escape_cons. unfold escape_byte.
  destruct (is_escaped b) eqn:Hb.
  - simpl. rewrite IH. reflexivity.
  - simpl.
    destruct (Ascii.eqb_spec b singleQuote) as [-> | _];
      [ vm_compute in Hb; discriminate | ].
    destruct (Ascii.eqb_spec b backslash) as [-> | _];
      [ vm_compute in Hb; discriminate | ].
    rewrite IH. reflexivity.
Qed.

(** X5. Whatever text follows a quoted literal, a reader that starts at
    its opening quote, takes the byte after a backslash as it is and stops
    at the first single quote that is not so taken, stops at the closing
    quote of the literal: it reads the bytes of the string and leaves
    exactly the text that follows. No byte of the string ends the literal
    early. *)
Theorem quoteString_literal_is_closed (s : string) (rest : list byte) :
  (quoteString s ≫= λ q, readLiteral (bytes q ++ rest)) = Some (bytes s, rest).
Proof.
  rewrite quoteString_quoted. simpl. unfold quoted, bytes, string_of_bytes.
  rewrite String.list_ascii_of_string_of_list_ascii. simpl.
  rewrite <- app_assoc. apply scanLiteral_escape.
Qed.

Lemma string_of_bytes_app (a b : list byte) :
  string_of_bytes (a ++ b) = string_of_bytes a +:+ string_of_bytes b.
Proof.
  induction a as [|c a IH]; [ reflexivity | ].
  simpl. rewrite append_String. f_equal. exact IH.
Qed.

Lemma string_of_bytes_length (b : list byte) :
  String.length (string_of_bytes b) = length b.
Proof. induction b as [|c b IH]; [ reflexivity | ]. simpl. rewrite IH. reflexivity. Qed.

Lemma escape_length (s : list byte) :
  length (escape s) = (length s + length (filter (λ b, is_escaped b = true) s))%nat.
Proof.
  induction s as [|b s IH]; [ reflexivity | ].
  rewrite escape_cons, length_app, IH, filter_cons. unfold escape_byte.
  destruct (is_escaped b) eqn:Hb; case_decide; try congruence; simpl; lia.
Qed.

Lemma escape_plain (s : list byte) :
  Forall (λ b, is_escaped b = false) s → escape s = s.
Proof.
  induction 1 as [|b s Hb _ IH]; [ reflexivity | ].
  rewrite escape_cons, IH. unfold escape_byte. rewrite Hb. reflexivity.
Qed.

(** X6. The quoted literal of [s] is longer than [s] by the two quotes and
    by one byte for each of its bytes that needs a backslash; and a string
    with no such byte is quoted to itself between two single quotes. *)
Theorem quoteString_length_and_plain (s : string) :
  (String.length <$> quoteString s)
  = Some (len s + 2 + length (filter (λ b, is_escaped b = true) (bytes s)))%nat
  ∧ (Forall (λ b, is_escaped b = false) (bytes s) →
     quoteString s = Some ("'" +:+ s +:+ "'")).
Proof.
  rewrite quoteString_quoted. split.
  - simpl. f_equal. unfold quoted. rewrite string_of_bytes_length. simpl.
    rewrite length_app, escape_length, bytes_length. simpl. lia.
  - intros Hplain. f_equal. unfold quoted. rewrite (escape_plain _ Hplain).
    change (singleQuote :: bytes s ++ [singleQuote])
      with ([singleQuote] ++ bytes s ++ [singleQuote]).
    rewrite !string_of_bytes_app. unfold string_of_bytes at 2, bytes.
    rewrite String.string_of_list_ascii_of_string. reflexivity.
Qed.

Lemma quoteString_length_and_plain_witness :
  quoteString "SELECT 1" = Some "'SELECT 1'"%string.
Proof.
  apply (quoteString_length_and_plain "SELECT 1").
  repeat constructor.
Defined.

Lemma data_marshals_with_precedence_0_witness :
  ∃ text,
    getSQL noTables (Other (Slice [Int (-5); Other (Ptr (Some (Str "a'b")))]))
    = Some (text, 0, None)
    ∧ ∀ e operator p isBool leftSql,
        0 < p → GetSQL e noTables = Some (leftSql, None) →
        GetSQL (binaryOperation e operator
                  (Other (Slice [Int (-5); Other (Ptr (Some (Str "a'b")))]))
                  p isBool) noTables
        = Some (parenthesized (bool_decide (prio e > p)) leftSql
                +:+ " " +:+ operator +:+ " " +:+ text, None).
Proof.
  exact (data_marshals_with_precedence_0 noTables
           (Other (Slice [Int (-5); Other (Ptr (Some (Str "a'b")))])) eq_refl).
Defined.

(** ** Constants under AND, OR and NOT *)

Lemma fold_constants (method : expression → value → expression)
    (op : bool → bool → bool) :
  (∀ a b, method (constant a) (Expr (constant b)) = constant (op a b)) →
  ∀ (bs : list bool) (a : bool),
    Package.fold method (Some (constant a)) (Some ∘ constant <$> bs)
    = Some (constant (foldl op a bs)).
Proof.
  intros Hop. induction bs as [|b bs IH]; intros a; [ reflexivity | ].
  simpl. rewrite Hop. apply IH.
Qed.

Lemma foldl_andb (bs : list bool) (a : bool) :
  foldl andb a bs = a && forallb id bs.
Proof.
  revert a. induction bs as [|b bs IH]; intros a; simpl.
  - rewrite andb_true_r. reflexivity.
  - rewrite IH. unfold id. rewrite andb_assoc. reflexivity.
Qed.

Lemma foldl_orb (bs : list bool) (a : bool) :
  foldl orb a bs = a || existsb id bs.
Proof.
  revert a. induction bs as [|b bs IH]; intros a; simpl.
  - rewrite orb_false_r. reflexivity.
  - rewrite IH. unfold id. rewrite orb_assoc. reflexivity.
Qed.

(** X7. On the constants the short cuts compute the truth tables: the
    methods [And], [Or] and [Not] return the constant of the conjunction,
    disjunction and negation, and the variadic [And] and [Or] of the
    package return the constant of the conjunction and disjunction of all
    their conditions, true and false for no condition. *)
Theorem constants_fold_to_constants (a b : bool) (bs : list bool) :
  And (constant a) (Expr (constant b)) = constant (a && b)
  ∧ Or (constant a) (Expr (constant b)) = constant (a || b)
  ∧ Not (constant a) = constant (negb a)
  ∧ Package.And (Some ∘ constant <$> bs) = Some (constant (forallb id bs))
  ∧ Package.Or (Some ∘ constant <$> bs) = Some (constant (existsb id bs)).
Proof.
  split; [ destruct a, b; reflexivity | ].
  split; [ destruct a, b; reflexivity | ].
  split; [ destruct a; reflexivity | ].
  split.
  - destruct bs as [|c bs]; [ reflexivity | ].
    unfold Package.And. simpl.
    rewrite (fold_constants And andb) by (intros [] []; reflexivity).
    rewrite foldl_andb. reflexivity.
  - destruct bs as [|c bs]; [ reflexivity | ].
    unfold Package.Or. simpl.
    rewrite (fold_constants Or orb) by (intros [] []; reflexivity).
    rewrite foldl_orb. reflexivity.
Qed.

(** ** Conjunctions and disjunctions of conditions *)

Lemma fold_binary_joined (scope : scope) (operator : string) (p : priority)
    (method : expression → value → expression) :
  (∀ e v, isTrue e = false → isFalse e = false →
          method e v = binaryOperation e operator v p true) →
  ∀ (conditions : list expression) (texts : list string)
    (first : expression) (text : string),
    isTrue first = false → isFalse first = false → prio first <= p →
    GetSQL first scope = Some (text, None) →
    Forall2 (λ e t, prio e < p ∧ GetSQL e scope = Some (t, None))
      conditions texts →
    Package.fold method (Some first) (Some <$> conditions) ≫= (λ e, GetSQL e scope)
    = Some (text +:+ foldr (λ t rest, " " +:+ operator +:+ " " +:+ t +:+ rest)
                       "" texts, None).
Proof.
  intros Hmethod.
  induction conditions as [|c conditions IH];
    intros texts first text Ht Hf Hp Hfirst Hall.
  - apply Forall2_nil_inv_l in Hall as ->. simpl. rewrite append_nil_r.
    exact Hfirst.
  - apply Forall2_cons_inv_l in Hall as (t & texts' & (Hc & Hct) & Hall & ->).
    change (Package.fold method (Some first) (Some <$> c :: conditions))
      with (Package.fold method (Some (method first (Expr c)))
              (Some <$> conditions)).
    rewrite (Hmethod first (Expr c) Ht Hf).
    rewrite (IH texts' (binaryOperation first operator (Expr c) p true)
               (text +:+ " " +:+ operator +:+ " " +:+ t)); try reflexivity.
    + f_equal. f_equal. autorewrite with strings. reflexivity.
    + rewrite (binaryOperation_GetSQL _ _ _ _ _ _ _ _ _ Hfirst
                 (getSQL_Expr _ _ _ Hct)).
      replace (prio first >? p) with false by lia.
      replace (prio c >=? p) with false by lia.
      reflexivity.
    + exact Hall.
Qed.

Lemma And_not_constant (e : expression) (v : value) :
  isTrue e = false → isFalse e = false →
  And e v = binaryOperation e "AND" v 14 true.
Proof. intros Ht Hf. unfold And. rewrite Ht, Hf. reflexivity. Qed.

Lemma Or_not_constant (e : expression) (v : value) :
  isTrue e = false → isFalse e = false →
  Or e v = binaryOperation e "OR" v 16 true.
Proof. intros Ht Hf. unfold Or. rewrite Ht, Hf. reflexivity. Qed.

(** X8. The variadic [And] of conditions that render, the first neither
    definitely true nor definitely false and all of precedence below 14
    (comparisons, tests, memberships, ranges, negations), renders their
    texts with [AND] between them and no parentheses; so does [Or] with
    [OR], for precedence below 16, which includes conjunctions. *)
Theorem Package_And_Or_join (scope : scope) (first : expression)
    (text : string) (conditions : list expression) (texts : list string) :
  isTrue first = false → isFalse first = false →
  GetSQL first scope = Some (text, None) →
  (prio first < 14 →
   Forall2 (λ e t, prio e < 14 ∧ GetSQL e scope = Some (t, None))
     conditions texts →
   Package.And (Some <$> first :: conditions) ≫= (λ e, GetSQL e scope)
   = Some (joined " AND " (text :: texts), None))
  ∧ (prio first < 16 →
     Forall2 (λ e t, prio e < 16 ∧ GetSQL e scope = Some (t, None))
       conditions texts →
     Package.Or (Some <$> first :: conditions) ≫= (λ e, GetSQL e scope)
     = Some (joined " OR " (text :: texts), None)).
Proof.
  intros Ht Hf Hfirst. split; intros Hp Hall; rewrite joined_cons.
  - change (Package.And (Some <$> first :: conditions))
      with (Package.fold And (Some first) (Some <$> conditions)).
    etrans;
      [ exact (fold_binary_joined scope "AND" 14 And And_not_constant
                 conditions texts first text Ht Hf ltac:(lia) Hfirst Hall) | ].
    reflexivity.
  - change (Package.Or (Some <$> first :: conditions))
      with (Package.fold Or (Some first) (Some <$> conditions)).
    etrans;
      [ exact (fold_binary_joined scope "OR" 16 Or Or_not_constant
                 conditions texts first text Ht Hf ltac:(lia) Hfirst Hall) | ].
    reflexivity.
Qed.

Lemma Package_And_Or_join_witness :
  Package.And (Some <$> [Equals (column "a") (Int 1); IsNull (column "b");
                         Between (column "c") (Int 1) (Int 2)])
    ≫= (λ e, GetSQL e noTables)
  = Some ("a = 1 AND b IS NULL AND c BETWEEN 1 AND 2"%string, None)
  ∧ Package.Or (Some <$> [And (Equals (column "a") (Int 1)) (Expr (column "b"));
                          LessThan (column "c") (Int 2)])
      ≫= (λ e, GetSQL e noTables)
    = Some ("a = 1 AND b OR c < 2"%string, None).
Proof.
  split.
  - apply (Package_And_Or_join noTables (Equals (column "a") (Int 1)) "a = 1"
             [IsNull (column "b"); Between (column "c") (Int 1) (Int 2)]
             ["b IS NULL"; "c BETWEEN 1 AND 2"]%string eq_refl eq_refl eq_refl);
      [ simpl; lia | ].
    repeat constructor; simpl; lia.
  - apply (Package_And_Or_join noTables
             (And (Equals (column "a") (Int 1)) (Expr (column "b"))) "a = 1 AND b"
             [LessThan (column "c") (Int 2)] ["c < 2"]%string
             eq_refl eq_refl eq_refl);
      [ simpl; lia | ].
    repeat constructor; simpl; lia.
Defined.

(** ** Memberships *)

Lemma In_NotIn_flattened (x : expression) (values : list value)
    (v : value) (flat : list value) :
  expandSliceValues values = Some (v :: flat) →
  In x values
  = Some (built (getBuilder x (Equals x)
                   (λ exprSql valuesSql, exprSql +:+ " IN (" +:+ valuesSql +:+ ")")
                   (v :: flat)) 11 false)
  ∧ NotIn x values
    = Some (built (getBuilder x (NotEquals x)
                     (λ exprSql valuesSql,
                        exprSql +:+ " NOT IN (" +:+ valuesSql +:+ ")")
                     (v :: flat)) 11 false).
Proof. intros Hflat. unfold In, NotIn. rewrite Hflat. split; reflexivity. Qed.

(** X9. When the values of [x.In(...)] flatten to a single value that is
    not a select statement, the membership renders what the comparison
    [x.Equals(v)] renders, text or error, and [x.NotIn(...)] what
    [x.NotEquals(v)] renders. *)
Theorem In_single_value_is_Equals (x : expression) (values : list value)
    (v : value) (scope : scope) :
  expandSliceValues values = Some [v] →
  (∀ selectStatus, v ≠ SelectFinal selectStatus) →
  (In x values ≫= λ e, GetSQL e scope) = GetSQL (Equals x v) scope
  ∧ (NotIn x values ≫= λ e, GetSQL e scope) = GetSQL (NotEquals x v) scope.
Proof.
  intros Hflat Hv.
  destruct (In_NotIn_flattened x values v [] Hflat) as [-> ->].
  simpl. rewrite !GetSQL_built. unfold getBuilder.
  destruct v; try (split; reflexivity). exfalso. exact (Hv _ eq_refl).
Qed.

Lemma In_single_value_is_Equals_witness :
  (In (column "x") [Other (Slice [Other (Ptr (Some (Int 5)))])]
     ≫= λ e, GetSQL e noTables)
  = Some ("x = 5"%string, None).
Proof.
  apply (In_single_value_is_Equals (column "x")
           [Other (Slice [Other (Ptr (Some (Int 5)))])] (Int 5) noTables eq_refl).
  discriminate.
Defined.

(** X10. When the values flatten to two values or more, which all
    marshal, and [x] renders, [x.In(...)] renders the text of [x], [IN]
    and the texts of the values in one pair of parentheses with commas
    between them; [x.NotIn(...)] does with [NOT IN]. Neither the text of
    [x] nor any value is put in parentheses of its own. *)
Theorem In_list_rendering (x : expression) (values flat : list value)
    (texts : list string) (exprSql : string) (scope : scope) :
  expandSliceValues values = Some flat →
  (2 <= length flat)%nat →
  Forall2 (λ v text, ∃ p, getSQL scope v = Some (text, p, None)) flat texts →
  GetSQL x scope = Some (exprSql, None) →
  (In x values ≫= λ e, GetSQL e scope)
  = Some (exprSql +:+ " IN (" +:+ joined ", " texts +:+ ")", None)
  ∧ (NotIn x values ≫= λ e, GetSQL e scope)
    = Some (exprSql +:+ " NOT IN (" +:+ joined ", " texts +:+ ")", None).
Proof.
  intros Hflat Hlen Htexts Hx.
  destruct flat as [|v [|v' flat]]; [ simpl in Hlen; lia | simpl in Hlen; lia | ].
  destruct (In_NotIn_flattened x values v (v' :: flat) Hflat) as [-> ->].
  cbn [mbind option_bind]. rewrite !GetSQL_built. unfold getBuilder.
  assert (commaValues scope (v :: v' :: flat) = Some (joined ", " texts, None))
    as -> by exact (commaValues_with_joined (getSQL scope) _ _ Htexts).
  cbn [orReturn mbind option_bind]. rewrite Hx. split; reflexivity.
Qed.

Lemma In_list_rendering_witness :
  (In (Or (column "a") (Expr (column "b")))
      [Int 1; Other (Slice [Str "x"; Expr (Add (column "c") (Int 2))])]
     ≫= λ e, GetSQL e noTables)
  = Some ("a OR b IN (1, 'x', c + 2)"%string, None).
Proof.
  apply (In_list_rendering (Or (column "a") (Expr (column "b")))
           [Int 1; Other (Slice [Str "x"; Expr (Add (column "c") (Int 2))])]
           [Int 1; Str "x"; Expr (Add (column "c") (Int 2))]
           ["1"; "'x'"; "c + 2"]%string "a OR b" noTables eq_refl).
  - simpl. lia.
  - repeat constructor; eexists; reflexivity.
  - reflexivity.
Defined.

(** X11. When the values flatten to a single select statement that
    renders, [x.In(...)] renders the text of [x], [IN] and the text of
    the statement in one pair of parentheses, although the marshaller by
    itself already wraps a select statement in parentheses; the error of
    the statement is the error of the membership. *)
Theorem In_subquery_rendering (x : expression) (values : list value)
    (query exprSql : string) (err : option error) (scope : scope) :
  expandSliceValues values = Some [SelectFinal (Some (query, err))] →
  GetSQL x scope = Some (exprSql, None) →
  getSQL scope (SelectFinal (Some (query, None)))
  = Some ("(" +:+ query +:+ ")", 0, None)
  ∧ (In x values ≫= λ e, GetSQL e scope)
    = Some (match err with
            | None => (exprSql +:+ " IN (" +:+ query +:+ ")", None)
            | Some _ => (""%string, err)
            end)
  ∧ (NotIn x values ≫= λ e, GetSQL e scope)
    = Some (match err with
            | None => (exprSql +:+ " NOT IN (" +:+ query +:+ ")", None)
            | Some _ => (""%string, err)
            end).
Proof.
  intros Hflat Hx.
  destruct (In_NotIn_flattened x values _ [] Hflat) as [-> ->].
  cbn [mbind option_bind]. rewrite !GetSQL_built. unfold getBuilder.
  destruct err as [err|]; simpl; [ | rewrite Hx ]; repeat split.
Qed.

Lemma In_subquery_rendering_witness :
  (In (column "x") [SelectFinal (Some ("SELECT id FROM t"%string, None))]
     ≫= λ e, GetSQL e noTables)
  = Some ("x IN (SELECT id FROM t)"%string, None)
  ∧ (NotIn (column "x") [failingSelect] ≫= λ e, GetSQL e noTables)
    = Some (""%string, Some "no table"%string).
Proof.
  split.
  - apply (In_subquery_rendering (column "x")
             [SelectFinal (Some ("SELECT id FROM t"%string, None))]
             "SELECT id FROM t" "x" None noTables eq_refl eq_refl).
  - apply (In_subquery_rendering (column "x") [failingSelect]
             "SELECT" "x" (Some "no table"%string) noTables eq_refl eq_refl).
Defined.

(** ** Flattening *)

Lemma expandSliceValues_loop_acc (values : list value) :
  ∀ result,
    expandSliceValues_loop result values
    = (app result <$> expandSliceValues values).
Proof.
  unfold expandSliceValues.
  induction values as [|v values IH]; intros result.
  - simpl. rewrite app_nil_r. reflexivity.
  - simpl. destruct (expandSliceValue v) as [expanded|]; [ | reflexivity ].
    simpl. rewrite (IH (result ++ expanded)), (IH expanded).
    destruct (expandSliceValues_loop [] values) as [rest|]; [ | reflexivity ].
    simpl. rewrite app_assoc. reflexivity.
Qed.

Lemma expandSliceValue_elems_loop (elems : list value) :
  ∀ result,
    expandSliceValue_elems result elems = expandSliceValues_loop result elems.
Proof.
  induction elems as [|v elems IH]; intros result; [ reflexivity | ].
  simpl. destruct (expandSliceValue v); [ | reflexivity ]. simpl. apply IH.
Qed.

Lemma expandSliceValues_cons (v : value) (values : list value) :
  expandSliceValues (v :: values)
  = (expanded ← expandSliceValue v;
     rest ← expandSliceValues values;
     Some (expanded ++ rest)).
Proof.
  unfold expandSliceValues at 1. simpl.
  destruct (expandSliceValue v) as [expanded|]; [ | reflexivity ].
  simpl. rewrite expandSliceValues_loop_acc.
  destruct (expandSliceValues values); reflexivity.
Qed.

Lemma expandSliceValues_app (a b : list value) :
  expandSliceValues (a ++ b)
  = (flatA ← expandSliceValues a;
     flatB ← expandSliceValues b;
     Some (flatA ++ flatB)).
Proof.
  induction a as [|v a IH].
  - simpl. change (expandSliceValues []) with (Some (@nil value)). simpl.
    destruct (expandSliceValues b); reflexivity.
  - simpl app. rewrite !expandSliceValues_cons, IH.
    destruct (expandSliceValue v) as [expanded|]; [ | reflexivity ].
    simpl. destruct (expandSliceValues a) as [flatA|]; [ | reflexivity ].
    simpl. destruct (expandSliceValues b) as [flatB|]; [ | reflexivity ].
    simpl. rewrite app_assoc. reflexivity.
Qed.

Lemma expandSliceValue_Slice_values (elems : list value) :
  expandSliceValue (Other (Slice elems)) = expandSliceValues elems.
Proof. rewrite expandSliceValue_Slice. apply expandSliceValue_elems_loop. Qed.

Lemma expandSliceValue_isFlat (v : value) :
  isFlat v = true → expandSliceValue v = Some [v].
Proof.
  destruct v as [ | | | | | | | | | | | |r]; try discriminate; try reflexivity.
  destruct r as [[u|]| | | | | | | | ]; try discriminate; reflexivity.
Qed.

Lemma expandSliceValue_flat (v : value) :
  ∀ flat, expandSliceValue v = Some flat → Forall (λ w, isFlat w = true) flat.
Proof.
  induction v as [v IH] using value_heldBy_ind. intros flat Hv.
  destruct (isFlat v) eqn:Hflat.
  { rewrite (expandSliceValue_isFlat v Hflat) in Hv. injection Hv as <-.
    repeat constructor. exact Hflat. }
  destruct v as [ | | | | | | | | | | |[tm|]|r]; try discriminate.
  { injection Hv as <-. repeat constructor. }
  destruct r as [[u|]| | | | | |elems| | ]; try discriminate.
  - exact (IH u (held_pointee u) flat Hv).
  - rewrite expandSliceValue_Slice_values in Hv.
    assert (∀ w, w ∈ elems → ∀ flat, expandSliceValue w = Some flat →
                 Forall (λ w, isFlat w = true) flat) as Helems
      by (intros w Hw; apply IH; constructor; exact Hw).
    clear IH Hflat. revert flat Hv.
    induction elems as [|w elems IHelems]; intros flat Hv.
    + injection Hv as <-. constructor.
    + rewrite expandSliceValues_cons in Hv.
      destruct (expandSliceValue w) as [expanded|] eqn:Hw; [ | discriminate ].
      simpl in Hv.
      destruct (expandSliceValues elems) as [rest|]; [ | discriminate ].
      injection Hv as <-. apply Forall_app. split.
      * apply (Helems w (list_elem_of_here _ _) _ Hw).
      * apply IHelems; [ | reflexivity ].
        intros w' Hw'. apply Helems. apply list_elem_of_further. exact Hw'.
Qed.

Lemma expandSliceValues_of_flat (flat : list value) :
  Forall (λ w, isFlat w = true) flat → expandSliceValues flat = Some flat.
Proof.
  induction 1 as [|v flat Hv _ IH]; [ reflexivity | ].
  rewrite expandSliceValues_cons, (expandSliceValue_isFlat v Hv), IH.
  reflexivity.
Qed.

(** X12. The list that the values of [In] and [NotIn] flatten to holds no
    nil, pointer, array or slice any more, and flattening it again leaves
    it as it is. *)
Theorem expandSliceValues_flat (values flat : list value) :
  expandSliceValues values = Some flat →
  Forall (λ w, isFlat w = true) flat ∧ expandSliceValues flat = Some flat.
Proof.
  intros Hflat.
  assert (Forall (λ w, isFlat w = true) flat) as Hall.
  { apply (expandSliceValue_flat (Other (Slice values))).
    rewrite expandSliceValue_Slice_values. exact Hflat. }
  split; [ exact Hall | apply expandSliceValues_of_flat; exact Hall ].
Qed.

Lemma expandSliceValues_flat_witness :
  expandSliceValues
    [Int 1; Other (Slice [Str "a"; Other (Ptr (Some (Other (Slice [Int 2]))))]);
     TimePtr (Some None)]
  = Some [Int 1; Str "a"; Int 2; TimeVal None]
  ∧ expandSliceValues [Int 1; Str "a"; Int 2; TimeVal None]
    = Some [Int 1; Str "a"; Int 2; TimeVal None].
Proof.
  split; [ reflexivity | ].
  apply (expandSliceValues_flat
           [Int 1; Other (Slice [Str "a"; Other (Ptr (Some (Other (Slice [Int 2]))))]);
            TimePtr (Some None)]).
  reflexivity.
Defined.

(** X13. An array or slice among the values of [In] and [NotIn] stands for
    its elements in their place, and a non-nil pointer for what it points
    to: [x.In(a, []T{b, c}, d)] is [x.In(a, b, c, d)], node for node. *)
Theorem In_spreads_slices_and_pointers (x : expression)
    (before after elems : list value) (v : value) :
  In x (before ++ Other (Slice elems) :: after) = In x (before ++ elems ++ after)
  ∧ NotIn x (before ++ Other (Slice elems) :: after)
    = NotIn x (before ++ elems ++ after)
  ∧ In x (before ++ Other (Ptr (Some v)) :: after) = In x (before ++ v :: after)
  ∧ NotIn x (before ++ Other (Ptr (Some v)) :: after)
    = NotIn x (before ++ v :: after).
Proof.
  assert (expandSliceValues (before ++ Other (Slice elems) :: after)
          = expandSliceValues (before ++ elems ++ after)) as Hslice.
  { rewrite !expandSliceValues_app, expandSliceValues_cons,
      expandSliceValue_Slice_values.
    destruct (expandSliceValues before); [ | reflexivity ].
    destruct (expandSliceValues elems); [ | reflexivity ].
    destruct (expandSliceValues after); reflexivity. }
  assert (expandSliceValues (before ++ Other (Ptr (Some v)) :: after)
          = expandSliceValues (before ++ v :: after)) as Hptr.
  { rewrite !expandSliceValues_app, !expandSliceValues_cons. reflexivity. }
  unfold In, NotIn. rewrite Hslice, Hptr. repeat split.
Qed.

Lemma expandSliceValues_None (values : list value) :
  expandSliceValues values = None ↔ ∃ v, v ∈ values ∧ expandSliceValue v = None.
Proof.
  induction values as [|v values IH].
  - split; [ discriminate | ]. intros (v & Hin & _).
    apply elem_of_nil in Hin. contradiction.
  - rewrite expandSliceValues_cons. split.
    + destruct (expandSliceValue v) as [expanded|] eqn:Hv.
      * simpl. destruct (expandSliceValues values) eqn:Hrest; [ discriminate | ].
        intros _. destruct (proj1 IH eq_refl) as (w & Hin & Hw).
        exists w. split; [ apply list_elem_of_further; exact Hin | exact Hw ].
      * intros _. exists v. split; [ apply list_elem_of_here | exact Hv ].
    + intros (w & Hin & Hw). apply elem_of_cons in Hin as [-> | Hin].
      * rewrite Hw. reflexivity.
      * destruct (expandSliceValue v); [ | reflexivity ]. simpl.
        rewrite (proj2 IH (ex_intro _ w (conj Hin Hw))). reflexivity.
Qed.

Lemma expandSliceValue_None (v : value) :
  expandSliceValue v = None ↔ holdsNil v.
Proof.
  split.
  - induction v as [v IH] using value_heldBy_ind. intros Hv.
    destruct v as [ | | | | | | | | | | |[tm|]|r]; try discriminate;
      try constructor.
    destruct r as [[u|]| | | | | |elems| | ]; try discriminate.
    + apply (holdsNil_held u); [ constructor | ].
      apply IH; [ constructor | exact Hv ].
    + constructor.
    + rewrite expandSliceValue_Slice_values in Hv.
      apply expandSliceValues_None in Hv as (w & Hin & Hw).
      apply (holdsNil_held w); [ constructor; exact Hin | ].
      apply IH; [ constructor; exact Hin | exact Hw ].
  - induction 1 as [ | | | w v Hheld _ IH ]; try reflexivity.
    destruct Hheld as [w | w elems Hin].
    + exact IH.
    + rewrite expandSliceValue_Slice_values. apply expandSliceValues_None.
      exists w. split; assumption.
Qed.

(** X14. [In] and [NotIn] panic exactly when one of their values holds a
    nil, that is, is the nil interface or a nil pointer or holds one in a
    pointer, array or slice at any depth; for all other values they
    return a node. *)
Theorem In_NotIn_panic_iff_nil (x : expression) (values : list value) :
  (In x values = None ↔ Exists holdsNil values)
  ∧ (NotIn x values = None ↔ Exists holdsNil values).
Proof.
  assert (expandSliceValues values = None ↔ Exists holdsNil values) as Hiff.
  { rewrite expandSliceValues_None, Exists_exists.
    split; intros (v & Hin & Hv); exists v; (split; [ exact Hin | ]);
      apply expandSliceValue_None; exact Hv. }
  unfold In, NotIn.
  destruct (expandSliceValues values) as [flat|].
  - simpl. destruct (length flat =? 0)%nat;
      split; (split; [ discriminate | intros H; apply Hiff in H; discriminate ]).
  - split; (split; [ intros _; apply Hiff; reflexivity | reflexivity ]).
Qed.

(** ** Unary operators, function calls and the string helpers *)

(** X15. Over an operand that renders [s] and is not a literal of higher
    precedence than the operator, a unary operator (the six [IS] tests
    and [NOT]) renders prefix, [s] and suffix, with [s] in parentheses
    exactly when the precedence of the operand is strictly greater than
    that of the operator: the literal path and the render-function path
    give the same text. *)
Theorem unary_operator_rendering (e : expression) (prefix suffix : string)
    (p : priority) (isBool : bool) (scope : scope) (s : string) :
  GetSQL e scope = Some (s, None) →
  sql e = ""%string ∨ prio e <= p →
  GetSQL (prefixSuffixExpression e prefix suffix p isBool) scope
  = Some (prefix +:+ parenthesized (bool_decide (prio e > p)) s +:+ suffix, None).
Proof.
  intros He Hshape.
  destruct (String.eqb_spec (sql e) "") as [Hsql | Hsql].
  - rewrite (prefixSuffixExpression_GetSQL_builder e prefix suffix p isBool
               scope s Hsql He).
    replace (bool_decide (prio e > p)) with (prio e >? p)
      by (case_bool_decide; lia).
    reflexivity.
  - destruct Hshape as [Hempty | Hprio]; [ contradiction | ].
    rewrite (GetSQL_literal e scope Hsql) in He. injection He as <-.
    rewrite (prefixSuffixExpression_literal e _ _ _ _ Hsql).
    replace (bool_decide (prio e > p)) with false
      by (case_bool_decide; [ lia | reflexivity ]).
    apply GetSQL_literal. simpl.
    destruct prefix; [ | discriminate ]. rewrite append_nil_l.
    destruct (sql e); [ contradiction | discriminate ].
Qed.

Lemma unary_operator_rendering_witness :
  GetSQL (IsNull (Or (column "a") (Expr (column "b")))) noTables
  = Some ("(a OR b) IS NULL"%string, None)
  ∧ GetSQL (IsNotTrue (column "a")) noTables = Some ("a IS NOT TRUE"%string, None).
Proof.
  split.
  - apply (unary_operator_rendering (Or (column "a") (Expr (column "b")))
             "" " IS NULL" 11 true noTables "a OR b" eq_refl).
    left. reflexivity.
  - apply (unary_operator_rendering (column "a") "" " IS NOT TRUE" 11 true
             noTables "a" eq_refl).
    right. simpl. lia.
Defined.

Lemma function_GetSQL (name : string) (args : list value) (texts : list string)
    (scope : scope) :
  Forall2 (λ v text, ∃ p, getSQL scope v = Some (text, p, None)) args texts →
  GetSQL (function name args) scope
  = Some (name +:+ "(" +:+ joined ", " texts +:+ ")", None).
Proof.
  intros Hargs. unfold function. rewrite GetSQL_built.
  assert (commaValues scope args = Some (joined ", " texts, None)) as ->
    by exact (commaValues_with_joined (getSQL scope) _ _ Hargs).
  reflexivity.
Qed.

(** X16. A function call whose arguments marshal renders its name and the
    texts of the arguments, separated by commas, in parentheses; no
    argument gets parentheses of its own, whatever its precedence; and as
    an operand, on either side of an operator of positive precedence, the
    call is not put in parentheses. *)
Theorem function_call_rendering (name : string) (args : list value)
    (texts : list string) (scope : scope) :
  Forall2 (λ v text, ∃ p, getSQL scope v = Some (text, p, None)) args texts →
  let call := name +:+ "(" +:+ joined ", " texts +:+ ")" in
  GetSQL (function name args) scope = Some (call, None)
  ∧ (∀ operator v p isBool rightSql rightPriority,
       0 <= p → getSQL scope v = Some (rightSql, rightPriority, None) →
       GetSQL (binaryOperation (function name args) operator v p isBool) scope
       = Some (call +:+ " " +:+ operator +:+ " "
               +:+ parenthesized (bool_decide (rightPriority >= p)) rightSql,
               None))
  ∧ (∀ e operator p isBool leftSql,
       0 < p → GetSQL e scope = Some (leftSql, None) →
       GetSQL (binaryOperation e operator (Expr (function name args)) p isBool)
         scope
       = Some (parenthesized (bool_decide (prio e > p)) leftSql
               +:+ " " +:+ operator +:+ " " +:+ call, None)).
Proof.
  intros Hargs call.
  pose proof (function_GetSQL name args texts scope Hargs) as Hcall.
  fold call in Hcall. split; [ exact Hcall | ]. split.
  - intros operator v p isBool rightSql rightPriority Hp Hv.
    rewrite (binaryOperation_GetSQL _ _ _ _ _ _ _ _ _ Hcall Hv).
    replace (prio (function name args) >? p) with false by (simpl; lia).
    replace (bool_decide (rightPriority >= p)) with (rightPriority >=? p)
      by (case_bool_decide; lia).
    reflexivity.
  - intros e operator p isBool leftSql Hp He.
    rewrite (binaryOperation_GetSQL _ _ _ _ _ _ _ _ _ He
               (getSQL_Expr _ _ _ Hcall)).
    replace (prio (function name args) >=? p) with false by (simpl; lia).
    replace (bool_decide (prio e > p)) with (prio e >? p)
      by (case_bool_decide; lia).
    reflexivity.
Qed.

Lemma function_call_rendering_witness :
  GetSQL (Function "COALESCE" [Expr (Or (column "a") (Expr (column "b"))); Int 0])
    noTables
  = Some ("COALESCE(a OR b, 0)"%string, None)
  ∧ GetSQL (Mul (Sum (Add (column "a") (Int 1))) (Expr (Max (column "b")))) noTables
    = Some ("SUM(a + 1) * MAX(b)"%string, None).
Proof.
  split.
  - apply (function_call_rendering "COALESCE"
             [Expr (Or (column "a") (Expr (column "b"))); Int 0]
             ["a OR b"; "0"]%string noTables).
    repeat constructor; eexists; reflexivity.
  - destruct (function_call_rendering "SUM" [Expr (Add (column "a") (Int 1))]
                ["a + 1"]%string noTables
                ltac:(repeat constructor; eexists; reflexivity))
      as (_ & left_operand & _).
    apply (left_operand "*"%string (Expr (Max (column "b"))) 6 false
             "MAX(b)"%string 0); [ lia | reflexivity ].
Defined.

(** X17. The string helpers quote and escape the text they are given:
    for [e] that renders [s], [e.Contains(sub)] renders
    [LOCATE(<sub quoted>, s) > 0] and [e.IsEmpty()] renders [s = ''], with
    [s] in parentheses exactly when the precedence of [e] is above 11;
    and [e.HasPrefix(v)], for a value [v] that marshals to [t], renders
    [LEFT(s, CHAR_LENGTH(t)) = t], with the last [t] in parentheses
    exactly when its precedence is 11 or more ([HasSuffix] with
    [RIGHT]). *)
Theorem string_helpers_rendering (e : expression) (s : string) (scope : scope) :
  GetSQL e scope = Some (s, None) →
  (∀ substring,
     GetSQL (Contains e substring) scope
     = Some ("LOCATE(" +:+ quoted substring +:+ ", " +:+ s +:+ ") > 0", None))
  ∧ GetSQL (IsEmpty e) scope
    = Some (parenthesized (bool_decide (prio e > 11)) s +:+ " = ''", None)
  ∧ (∀ v t tp,
       getSQL scope v = Some (t, tp, None) →
       GetSQL (HasPrefix e v) scope
       = Some ("LEFT(" +:+ s +:+ ", CHAR_LENGTH(" +:+ t +:+ ")) = "
               +:+ parenthesized (bool_decide (tp >= 11)) t, None)
       ∧ GetSQL (HasSuffix e v) scope
         = Some ("RIGHT(" +:+ s +:+ ", CHAR_LENGTH(" +:+ t +:+ ")) = "
                 +:+ parenthesized (bool_decide (tp >= 11)) t, None)).
Proof.
  intros He. pose proof (getSQL_Expr _ _ _ He) as Ve. split; [ | split ].
  - intros substring. unfold Contains, GreaterThan.
    assert (getSQL scope (Str substring) = Some (quoted substring, 0, None)) as Vs
      by (simpl; rewrite quoteString_quoted; reflexivity).
    pose proof (function_GetSQL "LOCATE" [Str substring; Expr e]
                  [quoted substring; s] scope
                  ltac:(repeat constructor; eexists; eassumption)) as Hcall.
    rewrite (binaryOperation_GetSQL _ ">" (Int 0) 11 true scope _ "0" 0 Hcall
               eq_refl).
    builder_text.
  - unfold IsEmpty, Equals.
    rewrite (binaryOperation_GetSQL e "=" (Str "") 11 true scope s "''" 0 He
               eq_refl).
    replace (bool_decide (prio e > 11)) with (prio e >? 11)
      by (case_bool_decide; lia).
    builder_text.
  - intros v t tp Hv.
    assert (∀ name, GetSQL (function name [Expr e; Expr (function "CHAR_LENGTH" [v])])
                      scope
                    = Some (name +:+ "(" +:+ s +:+ ", CHAR_LENGTH(" +:+ t +:+ "))",
                            None)) as Hcall.
    { intros name.
      pose proof (function_GetSQL "CHAR_LENGTH" [v] [t] scope
                    ltac:(repeat constructor; eexists; eassumption)) as Hlen.
      rewrite (function_GetSQL name _ [s; "CHAR_LENGTH(" +:+ t +:+ ")"] scope).
      - builder_text.
      - repeat constructor; eexists;
          [ exact Ve | exact (getSQL_Expr _ _ _ Hlen) ]. }
    unfold HasPrefix, HasSuffix, Left, Right, Equals.
    rewrite (binaryOperation_GetSQL _ "=" v 11 true scope _ t tp (Hcall "LEFT"%string) Hv).
    rewrite (binaryOperation_GetSQL _ "=" v 11 true scope _ t tp (Hcall "RIGHT"%string) Hv).
    replace (bool_decide (tp >= 11)) with (tp >=? 11)
      by (case_bool_decide; lia).
    split; builder_text.
Qed.

Lemma string_helpers_rendering_witness :
  GetSQL (Contains (column "name") "o'b") noTables
  = Some ("LOCATE('o\'b', name) > 0"%string, None)
  ∧ GetSQL (HasPrefix (column "name") (Str "Mc")) noTables
    = Some ("LEFT(name, CHAR_LENGTH('Mc')) = 'Mc'"%string, None).
Proof.
  destruct (string_helpers_rendering (column "name") "name" noTables eq_refl)
    as (contains & _ & prefixed).
  split.
  - apply contains.
  - apply (prefixed (Str "Mc") "'Mc'"%string 0 eq_refl).
Defined.

(** ** The comma helpers, commands and assignments *)

Lemma commaItems_loop_joined {A} (render : A → option result) (items : list A) :
  ∀ (texts : list string) (i : nat) (sql : string),
    Forall2 (λ item text, render item = Some (text, None)) items texts →
    commaItems_loop render (S i) sql items
    = Some (sql +:+ foldr (λ text rest, ", " +:+ text +:+ rest) "" texts, None).
Proof.
  induction items as [|item items IH]; intros texts i sql Hall.
  - apply Forall2_nil_inv_l in Hall as ->. simpl. rewrite append_nil_r.
    reflexivity.
  - apply Forall2_cons_inv_l in Hall as (text & texts' & Hitem & Hall & ->).
    simpl. rewrite Hitem. simpl. rewrite (IH texts' (S i) _ Hall).
    f_equal. f_equal. autorewrite with strings. reflexivity.
Qed.

Lemma commaItems_joined {A} (render : A → option result) (items : list A)
    (texts : list string) :
  Forall2 (λ item text, render item = Some (text, None)) items texts →
  commaItems render items = Some (joined ", " texts, None).
Proof.
  intros Hall. unfold commaItems.
  destruct Hall as [|item text items texts Hitem Hall]; [ reflexivity | ].
  rewrite joined_cons.
  change (commaItems_loop render 0 "" (item :: items))
    with (itemSql <-? render item;
          commaItems_loop render 1 ("" +:+ itemSql) items).
  rewrite Hitem. simpl.
  apply (commaItems_loop_joined render items texts 0 _ Hall).
Qed.

Lemma commaItems_error {A} (render : A → option result)
    (before : list A) (item : A) (after : list A) (text : string) (err : error) :
  Forall (λ item, ∃ t, render item = Some (t, None)) before →
  render item = Some (text, Some err) →
  commaItems render (before ++ item :: after) = Some (""%string, Some err).
Proof.
  intros Hbefore Hitem. unfold commaItems.
  assert (∀ i sql, commaItems_loop render i sql (before ++ item :: after)
                   = Some (""%string, Some err)) as Hloop; [ | apply Hloop ].
  induction Hbefore as [|b before (t & Hb) _ IH]; intros i sql.
  - simpl. rewrite Hitem. reflexivity.
  - simpl. rewrite Hb. simpl. apply IH.
Qed.

Lemma commaItems_joins {A} (render : A → option result) :
  commaJoins (commaItems render) render.
Proof.
  split.
  - apply commaItems_joined.
  - apply commaItems_error.
Qed.

(** X18. [commaFields], [commaExpressions] and [commaAssignments] return
    the texts of their items with a comma and a space between them when
    every item renders, and the error of the first item that fails, with
    the empty text, whatever comes after it. *)
Theorem comma_helpers_join (scope : scope) :
  commaJoins (commaFields scope) (λ field, field scope)
  ∧ commaJoins (commaExpressions scope) (λ e, GetSQL e scope)
  ∧ commaJoins (commaAssignments scope) (λ a, assignment_GetSQL a scope).
Proof. repeat split; apply commaItems_joins. Qed.

Lemma comma_helpers_join_witness :
  commaExpressions noTables [column "a"; Add (column "b") (Int 1)]
  = Some ("a, b + 1"%string, None)
  ∧ commaFields noTables
      [λ _, Some ("`id`"%string, None); λ _, Some ("x"%string, Some "no such field"%string);
       λ _, None]
    = Some (""%string, Some "no such field"%string).
Proof.
  destruct (comma_helpers_join noTables) as ((_ & fields_fail) & (join & _) & _).
  split.
  - apply (join [column "a"; Add (column "b") (Int 1)] ["a"; "b + 1"]%string).
    repeat constructor.
  - apply (fields_fail [λ _, Some ("`id`"%string, None)] _ [λ _, None]
             "x"%string "no such field"%string);
      [ repeat constructor; eexists; reflexivity | reflexivity ].
Defined.

Lemma command_loop_joined (scope : scope) (args : list value) :
  ∀ (texts : list string) (i : nat) (sql : string),
    Forall2 (λ v text, ∃ p, getSQL scope v = Some (text, p, None)) args texts →
    command_loop scope (S i) sql args
    = Some (sql +:+ foldr (λ text rest, " " +:+ text +:+ rest) "" texts, None).
Proof.
  induction args as [|v args IH]; intros texts i sql Hall.
  - apply Forall2_nil_inv_l in Hall as ->. simpl. rewrite append_nil_r.
    reflexivity.
  - apply Forall2_cons_inv_l in Hall as (text & texts' & (p & Hv) & Hall & ->).
    simpl. unfold getSQLFromWhatever. rewrite Hv. simpl.
    rewrite (IH texts' (S i) _ Hall).
    f_equal. f_equal. autorewrite with strings. reflexivity.
Qed.

(** X19. A command renders the texts of its arguments with one space
    between them when they all marshal, and the empty text for no
    argument; when an argument fails after arguments that marshal, it
    renders the error of that argument with the empty text. *)
Theorem command_rendering (scope : scope) :
  (∀ args texts,
     Forall2 (λ v text, ∃ p, getSQL scope v = Some (text, p, None)) args texts →
     GetSQL (command args) scope = Some (joined " " texts, None))
  ∧ (∀ before item after text p err,
       Forall (λ v, ∃ t q, getSQL scope v = Some (t, q, None)) before →
       getSQL scope item = Some (text, p, Some err) →
       GetSQL (command (before ++ item :: after)) scope
       = Some (""%string, Some err)).
Proof.
  split.
  - intros args texts Hall. unfold command. rewrite GetSQL_built.
    destruct Hall as [|v text args texts (p & Hv) Hall]; [ reflexivity | ].
    rewrite joined_cons.
    change (command_loop scope 0 "" (v :: args))
      with ('(itemSql, _) <-? getSQLFromWhatever scope v;
            command_loop scope 1 ("" +:+ itemSql) args).
    unfold getSQLFromWhatever. rewrite Hv. simpl.
    apply (command_loop_joined scope args texts 0 _ Hall).
  - intros before item after text p err Hbefore Hitem.
    unfold command. rewrite GetSQL_built.
    assert (∀ i sql, command_loop scope i sql (before ++ item :: after)
                     = Some (""%string, Some err)) as Hloop; [ | apply Hloop ].
    induction Hbefore as [|b before (t & q & Hb) _ IH]; intros i sql.
    + simpl. unfold getSQLFromWhatever. rewrite Hitem. reflexivity.
    + simpl. unfold getSQLFromWhatever. rewrite Hb. simpl. apply IH.
Qed.

Lemma command_rendering_witness :
  GetSQL (command [Expr (Raw "SET NAMES"); Str "utf8"]) noTables
  = Some ("SET NAMES 'utf8'"%string, None)
  ∧ GetSQL (command [Int 1; failingSelect; Int 2]) noTables
    = Some (""%string, Some "no table"%string).
Proof.
  destruct (command_rendering noTables) as (join & fail).
  split.
  - apply (join [Expr (Raw "SET NAMES"); Str "utf8"] ["SET NAMES"; "'utf8'"]%string).
    repeat constructor; eexists; reflexivity.
  - apply (fail [Int 1] failingSelect [Int 2] "SELECT"%string 0 "no table"%string);
      [ repeat constructor; eexists _, _; reflexivity | reflexivity ].
Defined.

(** X20. An assignment renders the text of its field, an equals sign and
    the text of its value, which gets no parentheses whatever its
    precedence; the value is marshalled first, so that when both fail the
    error is that of the value; every error comes with the empty text. *)
Theorem assignment_rendering (a : assignment) (scope : scope) :
  (∀ fieldSql valueSql p,
     assignment_field a scope = Some (fieldSql, None) →
     getSQL scope (assignment_value a) = Some (valueSql, p, None) →
     assignment_GetSQL a scope = Some (fieldSql +:+ " = " +:+ valueSql, None))
  ∧ (∀ valueSql p err,
       getSQL scope (assignment_value a) = Some (valueSql, p, Some err) →
       assignment_GetSQL a scope = Some (""%string, Some err))
  ∧ (∀ fieldSql valueSql p err,
       getSQL scope (assignment_value a) = Some (valueSql, p, None) →
       assignment_field a scope = Some (fieldSql, Some err) →
       assignment_GetSQL a scope = Some (""%string, Some err))
  ∧ clean (assignment_GetSQL a scope).
Proof.
  unfold assignment_GetSQL, getSQLFromWhatever. repeat apply conj.
  - intros fieldSql valueSql p Hf Hv. rewrite Hv. simpl. rewrite Hf. reflexivity.
  - intros valueSql p err Hv. rewrite Hv. reflexivity.
  - intros fieldSql valueSql p err Hv Hf. rewrite Hv. simpl. rewrite Hf.
    reflexivity.
  - apply clean_orReturn. intros [valueSql p].
    apply clean_orReturn. intros fieldSql. apply clean_success.
Qed.

Lemma assignment_rendering_witness :
  assignment_GetSQL
    (mkAssignment (λ _, Some ("`n`"%string, None))
       (Expr (Or (column "a") (Expr (column "b"))))) noTables
  = Some ("`n` = a OR b"%string, None)
  ∧ assignment_GetSQL
      (mkAssignment (λ _, Some (""%string, Some "no such field"%string))
         failingSelect) noTables
    = Some (""%string, Some "no table"%string).
Proof.
  split.
  - destruct (assignment_rendering
                (mkAssignment (λ _, Some ("`n`"%string, None))
                   (Expr (Or (column "a") (Expr (column "b"))))) noTables)
      as (rendered & _).
    apply (rendered "`n`"%string "a OR b"%string 16); reflexivity.
  - destruct (assignment_rendering
                (mkAssignment (λ _, Some (""%string, Some "no such field"%string))
                   failingSelect) noTables) as (_ & value_first & _).
    apply (value_first "SELECT"%string 0 "no table"%string). reflexivity.
Defined.

(** ** The insert statement *)

Lemma commaItems_clean {A} (render : A → option result) (items : list A) :
  clean (commaItems render items).
Proof.
  unfold commaItems. generalize 0%nat, ""%string.
  induction items as [|item items IH]; intros i sql.
  - apply clean_success.
  - simpl. apply clean_orReturn. intros itemSql. apply IH.
Qed.

Lemma insert_finish (s : insertStatus) (table : Table) (rest : list Table)
    (fieldTexts valueTexts : list string) :
  models s = [] →
  tables s = table :: rest →
  Forall2 (λ field text, field (insert_scope s) = Some (text, None))
    (fields s) fieldTexts →
  Forall2 (λ v text, ∃ p, getSQL (insert_scope s) v = Some (text, p, None))
    (values s) valueTexts →
  insertStatus_GetSQL s
  = let head :=
      method s +:+ " INTO " +:+ Table_GetSQL table (insert_scope s) +:+ " ("
      +:+ joined ", " fieldTexts +:+ ") VALUES " +:+ joined ", " valueTexts in
    if (0 <? length (onDuplicateKeyUpdateAssignments s))%nat then
      assignmentsSql <-? commaAssignments (insert_scope s)
                           (onDuplicateKeyUpdateAssignments s);
      Some (head +:+ " ON DUPLICATE KEY UPDATE " +:+ assignmentsSql, None)
    else Some (head, None).
Proof.
  intros Hmodels Htables Hfields Hvalues. unfold insertStatus_GetSQL.
  rewrite Hmodels, Htables. cbn [length Nat.ltb Nat.leb lookup list_lookup mbind option_bind].
  assert (commaFields (insert_scope s) (fields s)
          = Some (joined ", " fieldTexts, None)) as ->
    by exact (commaItems_joined _ _ _ Hfields).
  assert (commaValues (insert_scope s) (values s)
          = Some (joined ", " valueTexts, None)) as ->
    by exact (commaValues_with_joined (getSQL (insert_scope s)) _ _ Hvalues).
  cbn [orReturn mbind option_bind].
  destruct (0 <? length (onDuplicateKeyUpdateAssignments s))%nat.
  - destruct (commaAssignments (insert_scope s) (onDuplicateKeyUpdateAssignments s))
      as [[assignmentsSql [err|]]|]; simpl; try reflexivity.
  - reflexivity.
Qed.

(** X21. An insert statement without models, of fields and values that
    render, renders its method, [INTO], the text of its table, the fields
    in parentheses, [VALUES] and the values, each row of [Values] a
    parenthesized list, separated by commas (nothing after [VALUES] when
    [Values] was never called); with assignments that render it goes on
    with [ON DUPLICATE KEY UPDATE] and the assignments, and without any
    it does not. *)
Theorem insert_values_rendering (s : insertStatus) (table : Table)
    (rest : list Table) (fieldTexts valueTexts assignmentTexts : list string) :
  models s = [] →
  tables s = table :: rest →
  Forall2 (λ field text, field (insert_scope s) = Some (text, None))
    (fields s) fieldTexts →
  Forall2 (λ v text, ∃ p, getSQL (insert_scope s) v = Some (text, p, None))
    (values s) valueTexts →
  Forall2 (λ a text, assignment_GetSQL a (insert_scope s) = Some (text, None))
    (onDuplicateKeyUpdateAssignments s) assignmentTexts →
  insertStatus_GetSQL s
  = Some (method s +:+ " INTO " +:+ Table_GetSQL table (insert_scope s)
          +:+ " (" +:+ joined ", " fieldTexts +:+ ") VALUES "
          +:+ joined ", " valueTexts
          +:+ (if bool_decide (assignmentTexts = []) then ""
               else " ON DUPLICATE KEY UPDATE " +:+ joined ", " assignmentTexts),
          None).
Proof.
  intros Hmodels Htables Hfields Hvalues Hassignments.
  rewrite (insert_finish s table rest fieldTexts valueTexts
             Hmodels Htables Hfields Hvalues).
  cbv zeta.
  assert (commaAssignments (insert_scope s) (onDuplicateKeyUpdateAssignments s)
          = Some (joined ", " assignmentTexts, None)) as ->
    by exact (commaItems_joined _ _ _ Hassignments).
  destruct Hassignments as [|a text assignments texts Ha Hassignments].
  - simpl. autorewrite with strings. reflexivity.
  - cbn [length Nat.ltb Nat.leb orReturn mbind option_bind].
    rewrite bool_decide_eq_false_2 by discriminate.
    f_equal. f_equal. autorewrite with strings. reflexivity.
Qed.

Lemma insert_values_rendering_witness :
  insertStatus_GetSQL insertTwoRows
  = Some ("INSERT INTO `users` (`id`, `name`) VALUES (1, 'Alice'), (2, 'O\'Hara')"%string,
          None)
  ∧ insertStatus_GetSQL replaceOrUpdate
    = Some ("REPLACE INTO `users` (`id`, `name`) VALUES (1, 'Alice') ON DUPLICATE KEY UPDATE `name` = 'Al'"%string,
            None)
  ∧ insertStatus_GetSQL insertNoRow
    = Some ("INSERT INTO `users` (`id`, `name`) VALUES "%string, None).
Proof.
  split; [ | split ].
  - apply (insert_values_rendering insertTwoRows usersTable []
             ["`id`"; "`name`"]%string
             ["(1, 'Alice')"; "(2, 'O\'Hara')"]%string [] eq_refl eq_refl).
    + repeat constructor.
    + repeat constructor; exists 0; reflexivity.
    + constructor.
  - apply (insert_values_rendering replaceOrUpdate usersTable []
             ["`id`"; "`name`"]%string
             ["(1, 'Alice')"]%string ["`name` = 'Al'"]%string eq_refl eq_refl).
    + repeat constructor.
    + repeat constructor; exists 0; reflexivity.
    + repeat constructor.
  - apply (insert_values_rendering insertNoRow usersTable []
             ["`id`"; "`name`"]%string [] [] eq_refl eq_refl);
      repeat constructor.
Defined.

Lemma modelValues_same_table (tableName : string) (collected : list Model) :
  ∀ rows,
    Forall (λ m, GetName (GetTable m) = tableName) collected →
    modelValues tableName rows collected
    = inl (rows ++ ((λ m, Other (Slice (GetValues m))) <$> collected)).
Proof.
  induction collected as [|m collected IH]; intros rows Hall.
  - simpl. rewrite app_nil_r. reflexivity.
  - apply Forall_cons in Hall as [Hm Hall]. simpl.
    rewrite (proj2 (String.eqb_eq _ _) Hm). simpl.
    rewrite (IH _ Hall), <- app_assoc. reflexivity.
Qed.

Lemma modelValues_other_table (tableName : string) (collected : list Model) :
  ∀ rows,
    Exists (λ m, GetName (GetTable m) ≠ tableName) collected →
    modelValues tableName rows collected = inr "invalid table from model"%string.
Proof.
  induction collected as [|m collected IH]; intros rows Hex.
  - inversion Hex.
  - simpl. destruct (String.eqb_spec (GetName (GetTable m)) tableName) as [Heq|Hne];
      [ | reflexivity ].
    simpl. apply IH. inversion Hex; subst; [ contradiction | assumption ].
Qed.

Lemma addModels_nonempty (args : list modelArg) (m : Model) (ms : list Model) :
  addModels [] args = Some (m :: ms, None) → (0 <? length args)%nat = true.
Proof. destruct args; [ discriminate | reflexivity ]. Qed.

(** X22. Inserting models is inserting their rows: when the models of the
    statement are collected without error, there is at least one and all
    are of the table of the statement, the statement renders as the one
    whose fields are the fields of the table of the first model and whose
    values are the value lists of the models, one row each, in order;
    the fields and values given by [Fields] and [Values] are not
    used. *)
Theorem insert_models_as_rows (s : insertStatus) (first : Model)
    (others : list Model) (table : Table) (rest : list Table) :
  addModels [] (models s) = Some (first :: others, None) →
  tables s = table :: rest →
  Forall (λ m, GetName (GetTable m) = GetName table) (first :: others) →
  insertStatus_GetSQL s
  = insertStatus_GetSQL
      {| method := method s; insert_scope := insert_scope s; tables := tables s;
         fields := GetFields (GetTable first);
         values := (λ m, Other (Slice (GetValues m))) <$> first :: others;
         models := [];
         onDuplicateKeyUpdateAssignments := onDuplicateKeyUpdateAssignments s |}.
Proof.
  intros Hcollected Htables Hsame. unfold insertStatus_GetSQL at 1.
  rewrite (addModels_nonempty _ _ _ Hcollected), Hcollected, Htables.
  cbn [mbind option_bind lookup list_lookup].
  rewrite (modelValues_same_table _ _ [] Hsame).
  unfold insertStatus_GetSQL. cbn [models length Nat.ltb Nat.leb].
  cbn [method insert_scope tables fields values onDuplicateKeyUpdateAssignments].
  reflexivity.
Qed.

Lemma insert_models_as_rows_witness :
  insertStatus_GetSQL insertTwoModels
  = Some ("INSERT INTO `users` (`id`, `name`) VALUES (1, 'Alice'), (2, 'O\'Hara')"%string,
          None).
Proof.
  rewrite (insert_models_as_rows insertTwoModels alice [bob] usersTable []
             eq_refl eq_refl ltac:(repeat constructor)).
  reflexivity.
Defined.

(** X23. When the models are collected without error and one of them is
    of a table with another name than the table of the statement, the
    statement renders the error [invalid table from model], with the
    empty text, whatever the other models are. *)
Theorem insert_model_of_other_table (s : insertStatus) (first : Model)
    (others : list Model) (table : Table) (rest : list Table) :
  addModels [] (models s) = Some (first :: others, None) →
  tables s = table :: rest →
  Exists (λ m, GetName (GetTable m) ≠ GetName table) (first :: others) →
  insertStatus_GetSQL s = Some (""%string, Some "invalid table from model"%string).
Proof.
  intros Hcollected Htables Hother. unfold insertStatus_GetSQL.
  rewrite (addModels_nonempty _ _ _ Hcollected), Hcollected, Htables.
  cbn [mbind option_bind lookup list_lookup].
  rewrite (modelValues_other_table _ _ [] Hother). reflexivity.
Qed.

Lemma insert_model_of_other_table_witness :
  insertStatus_GetSQL
    (Models (InsertInto "db" usersTable)
       [IsModel alice;
        IsModel (mkModel (mkTable "orders" (λ _, "`orders`"%string) []) [Int 7])])
  = Some (""%string, Some "invalid table from model"%string).
Proof.
  apply (insert_model_of_other_table
           (Models (InsertInto "db" usersTable)
              [IsModel alice;
               IsModel (mkModel (mkTable "orders" (λ _, "`orders`"%string) []) [Int 7])])
           alice
           [mkModel (mkTable "orders" (λ _, "`orders`"%string) []) [Int 7]]
           usersTable [] eq_refl eq_refl).
  apply Exists_cons_tl, Exists_cons_hd. discriminate.
Defined.

Lemma addModel_Slice (acc : list Model) (elems : list modelArg) :
  addModel acc (ModelSlice elems) = addModels acc elems.
Proof.
  revert acc. induction elems as [|elem elems IH]; intros acc; [ reflexivity | ].
  simpl. destruct (addModel acc elem) as [[acc' [err|]]|]; reflexivity.
Qed.

Lemma addModels_app (acc : list Model) (a b : list modelArg) :
  addModels acc (a ++ b)
  = ('(acc', err) ← addModels acc a;
     match err with
     | Some _ => Some (acc', err)
     | None => addModels acc' b
     end).
Proof.
  revert acc. induction a as [|model a IH]; intros acc; [ reflexivity | ].
  simpl. destruct (addModel acc model) as [[acc' [err|]]|]; try reflexivity.
  simpl. apply IH.
Qed.

Lemma addModels_cons (acc : list Model) (model : modelArg) (args : list modelArg) :
  addModels acc (model :: args)
  = ('(acc', err) ← addModel acc model;
     match err with
     | Some _ => Some (acc', err)
     | None => addModels acc' args
     end).
Proof. reflexivity. Qed.

Lemma addModels_IsModel (ms : list Model) :
  ∀ acc, addModels acc (IsModel <$> ms) = Some (acc ++ ms, None).
Proof.
  induction ms as [|m ms IH]; intros acc.
  - simpl. rewrite app_nil_r. reflexivity.
  - simpl. rewrite IH, <- app_assoc. reflexivity.
Qed.

(** X24. [addModel] takes a slice for its elements in their place and a
    non-nil pointer for what it points to, and collects models in the
    order in which they stand; an element that is no model stops it with
    the error [unknown model type] and the number of its kind, 0 for the
    nil interface. *)
Theorem addModels_collects (acc : list Model) (before after elems : list modelArg)
    (v : modelArg) (ms : list Model) (kind : nat) :
  addModels acc (before ++ ModelSlice elems :: after)
  = addModels acc (before ++ elems ++ after)
  ∧ addModels acc (before ++ ModelPtr (Some v) :: after)
    = addModels acc (before ++ v :: after)
  ∧ addModels acc (IsModel <$> ms) = Some (acc ++ ms, None)
  ∧ addModels acc ((IsModel <$> ms) ++ ModelOther kind :: after)
    = Some (acc ++ ms,
            Some ("unknown model type (kind = " +:+ pretty kind +:+ ")"))
  ∧ addModels acc ((IsModel <$> ms) ++ ModelNil :: after)
    = Some (acc ++ ms, Some "unknown model type (kind = 0)"%string).
Proof.
  pose proof (addModels_IsModel ms) as Hms.
  repeat apply conj.
  - rewrite !addModels_app.
    destruct (addModels acc before) as [[acc' [err|]]|]; try reflexivity.
    cbn [mbind option_bind].
    rewrite addModels_cons, addModel_Slice, addModels_app.
    destruct (addModels acc' elems) as [[acc'' [err|]]|]; reflexivity.
  - rewrite !addModels_app.
    destruct (addModels acc before) as [[acc' [err|]]|]; reflexivity.
  - apply Hms.
  - rewrite addModels_app, Hms. reflexivity.
  - rewrite addModels_app, Hms. reflexivity.
Qed.

(** X25. An insert statement with models panics when nothing is collected
    from them, as from an empty slice (the first collected model is
    indexed), and when they hold a nil pointer of a type that is no
    model or a non-empty array, after models that are collected. *)
Theorem insert_models_panics (s : insertStatus) (ms : list Model)
    (after : list modelArg) (elem : modelArg) (elems : list modelArg) :
  (models s ≠ [] → addModels [] (models s) = Some ([], None) →
   insertStatus_GetSQL s = None)
  ∧ (models s = (IsModel <$> ms) ++ ModelPtr None :: after →
     insertStatus_GetSQL s = None)
  ∧ (models s = (IsModel <$> ms) ++ ModelArray (elem :: elems) :: after →
     insertStatus_GetSQL s = None).
Proof.
  repeat apply conj.
  - intros Hne Hnone. unfold insertStatus_GetSQL. rewrite Hnone.
    destruct (models s); [ contradiction | reflexivity ].
  - intros Hmodels. unfold insertStatus_GetSQL. rewrite Hmodels.
    rewrite addModels_app, addModels_IsModel.
    destruct ms; reflexivity.
  - intros Hmodels. unfold insertStatus_GetSQL. rewrite Hmodels.
    rewrite addModels_app, addModels_IsModel.
    destruct ms; reflexivity.
Qed.

Lemma insert_models_panics_witness :
  insertStatus_GetSQL (Models (InsertInto "db" usersTable) [ModelSlice []]) = None
  ∧ insertStatus_GetSQL
      (Models (InsertInto "db" usersTable) [IsModel alice; ModelPtr None])
    = None.
Proof.
  split.
  - destruct (insert_models_panics
                (Models (InsertInto "db" usersTable) [ModelSlice []])
                [] [] ModelNil []) as (nothing & _).
    apply nothing; [ discriminate | reflexivity ].
  - destruct (insert_models_panics
                (Models (InsertInto "db" usersTable) [IsModel alice; ModelPtr None])
                [alice] [] ModelNil []) as (_ & nil_pointer & _).
    apply nil_pointer. reflexivity.
Defined.

(** X26. Whatever its fields, values, models and assignments, an insert
    statement returns no text with an error. *)
Theorem insert_errors_have_no_text (s : insertStatus) :
  clean (insertStatus_GetSQL s).
Proof.
  unfold insertStatus_GetSQL. cbv zeta.
  destruct (0 <? length (models s))%nat.
  - destruct (addModels [] (models s)) as [[collected [err|]]|];
      cbn [mbind option_bind]; try (intros text e H; congruence).
    destruct (collected !! 0%nat) as [first|];
      cbn [mbind option_bind]; try (intros text e H; congruence).
    destruct (tables s !! 0%nat) as [table|] eqn:Htable;
      cbn [mbind option_bind]; try (intros text e H; congruence).
    destruct (modelValues (GetName table) [] collected) as [valueList|err];
      [ | intros text e H; congruence ].
    apply clean_orReturn. intros fieldsSql.
    apply clean_orReturn. intros valuesSql.
    destruct (0 <? length (onDuplicateKeyUpdateAssignments s))%nat;
      [ apply clean_orReturn; intros assignmentsSql | ]; apply clean_success.
  - destruct (tables s !! 0%nat) as [table|];
      cbn [mbind option_bind]; try (intros text e H; congruence).
    apply clean_orReturn. intros fieldsSql.
    apply clean_orReturn. intros valuesSql.
    destruct (0 <? length (onDuplicateKeyUpdateAssignments s))%nat;
      [ apply clean_orReturn; intros assignmentsSql | ]; apply clean_success.
Qed.

(** ** Nodes of the package, raw fragments and chains of operators *)

(** X27. A node that the package returns never has both a literal text
    and a render function, and has one of them unless it is a literal of
    the empty text; it is not both definitely true and definitely false,
    and only the two constants are definitely true or definitely false;
    and [And], [Or] and [Not] over such nodes return such nodes. *)
Theorem package_node_invariants (e : expression) (other : value) :
  produced e →
  (literalSet e && builderSet e = false)
  ∧ ((∀ priority isBool, e ≠ staticExpression "" priority isBool) →
     exactlyOneSet e = true)
  ∧ (isTrue e && isFalse e = false)
  ∧ (isTrue e = true → e = True_)
  ∧ (isFalse e = true → e = False_)
  ∧ ((∀ x, other = Expr x → produced x) →
     produced (And e other) ∧ produced (Or e other) ∧ produced (Not e)).
Proof.
  intros He.
  destruct (produced_exactlyOneSet e He) as [Hboth Hone].
  destruct (produced_constant e He) as [Ht Hf].
  repeat apply conj; try assumption.
  - destruct (isTrue e) eqn:Et; [ | reflexivity ].
    rewrite (Ht eq_refl). reflexivity.
  - intros Hother. apply And_Or_Not_produced; assumption.
Qed.

Lemma package_node_invariants_witness :
  exactlyOneSet (IsNull (column "a")) = true
  ∧ produced (And (IsNull (column "a")) (Expr True_)).
Proof.
  destruct (package_node_invariants (IsNull (column "a")) (Expr True_)
              (produced_prefixSuffix _ _ _ _ _))
    as (_ & one & _ & _ & _ & closed).
  split.
  - apply one. discriminate.
  - apply closed. intros x [= <-]. constructor.
Defined.

(** X28. As either operand of a binary operator of precedence below 99,
    a raw fragment with a text is put in parentheses. *)
Theorem Raw_operand_is_parenthesized (fragment : string) (e : expression)
    (operator : string) (v : value) (p : priority) (isBool : bool)
    (scope : scope) (s : string) (sp : priority) :
  fragment ≠ ""%string → p < 99 →
  (getSQL scope v = Some (s, sp, None) →
   GetSQL (binaryOperation (Raw fragment) operator v p isBool) scope
   = Some ("(" +:+ fragment +:+ ") " +:+ operator +:+ " "
           +:+ parenthesized (bool_decide (sp >= p)) s, None))
  ∧ (GetSQL e scope = Some (s, None) →
     GetSQL (binaryOperation e operator (Expr (Raw fragment)) p isBool) scope
     = Some (parenthesized (bool_decide (prio e > p)) s +:+ " " +:+ operator
             +:+ " (" +:+ fragment +:+ ")", None)).
Proof.
  intros Hne Hp.
  destruct (Raw_operand_of_binary_operator fragment e operator v p isBool
              scope s sp Hne Hp) as [Hleft Hright].
  split; intros Hs.
  - rewrite (Hleft Hs).
    replace (bool_decide (sp >= p)) with (sp >=? p) by (case_bool_decide; lia).
    reflexivity.
  - rewrite (Hright Hs).
    replace (bool_decide (prio e > p)) with (prio e >? p)
      by (case_bool_decide; lia).
    reflexivity.
Qed.

Lemma Raw_operand_is_parenthesized_witness :
  GetSQL (Mul (Raw "a + b") (Int 2)) noTables = Some ("(a + b) * 2"%string, None)
  ∧ GetSQL (And (column "c") (Expr (Raw "a OR b"))) noTables
    = Some ("c AND (a OR b)"%string, None).
Proof.
  split.
  - apply (Raw_operand_is_parenthesized "a + b" (column "c") "*" (Int 2) 6 false
             noTables "2" 0); [ discriminate | lia | reflexivity ].
  - apply (Raw_operand_is_parenthesized "a OR b" (column "c") "AND" Nil 14 true
             noTables "c" 0); [ discriminate | lia | reflexivity ].
Defined.

(** X29. With two operators of one precedence, over operands of lower
    precedence that render, the chain built to the left renders without
    parentheses and the chain built to the right renders with its right
    group in parentheses: [a.Sub(b).Sub(c)] is [a - b - c] and
    [a.Sub(b.Sub(c))] is [a - (b - c)]. *)
Theorem equal_precedence_chains (a b c : expression) (op1 op2 : string)
    (p : priority) (isBool1 isBool2 : bool) (scope : scope) (sa sb sc : string) :
  prio a < p → prio b < p → prio c < p →
  GetSQL a scope = Some (sa, None) →
  GetSQL b scope = Some (sb, None) →
  GetSQL c scope = Some (sc, None) →
  GetSQL (binaryOperation (binaryOperation a op1 (Expr b) p isBool1)
            op2 (Expr c) p isBool2) scope
  = Some (sa +:+ " " +:+ op1 +:+ " " +:+ sb +:+ " " +:+ op2 +:+ " " +:+ sc, None)
  ∧ GetSQL (binaryOperation a op1
              (Expr (binaryOperation b op2 (Expr c) p isBool2)) p isBool1) scope
    = Some (sa +:+ " " +:+ op1 +:+ " (" +:+ sb +:+ " " +:+ op2 +:+ " " +:+ sc
            +:+ ")", None).
Proof.
  intros Pa Pb Pc Ha Hb Hc.
  pose proof (getSQL_Expr _ _ _ Hb) as Vb.
  pose proof (getSQL_Expr _ _ _ Hc) as Vc.
  split.
  - pose proof (binaryOperation_GetSQL a op1 _ p isBool1 _ _ _ _ Ha Vb) as Hab.
    rewrite (binaryOperation_GetSQL _ op2 _ p isBool2 _ _ _ _ Hab Vc).
    simpl prio.
    replace (prio a >? p) with false by lia.
    replace (prio b >=? p) with false by lia.
    replace (prio c >=? p) with false by lia.
    replace (p >? p) with false by lia.
    builder_text.
  - pose proof (binaryOperation_GetSQL b op2 _ p isBool2 _ _ _ _ Hb Vc) as Hbc.
    apply getSQL_Expr in Hbc.
    rewrite (binaryOperation_GetSQL a op1 _ p isBool1 _ _ _ _ Ha Hbc).
    simpl prio.
    replace (prio a >? p) with false by lia.
    replace (prio b >? p) with false by lia.
    replace (prio c >=? p) with false by lia.
    replace (p >=? p) with true by lia.
    builder_text.
Qed.

Lemma equal_precedence_chains_witness :
  GetSQL (Add (Sub (column "a") (Expr (column "b"))) (Expr (column "c"))) noTables
  = Some ("a - b + c"%string, None)
  ∧ GetSQL (Sub (column "a") (Expr (Add (column "b") (Expr (column "c"))))) noTables
    = Some ("a - (b + c)"%string, None).
Proof.
  split.
  - apply (equal_precedence_chains (column "a") (column "b") (column "c")
             "-" "+" 7 false false noTables "a" "b" "c");
      (reflexivity || (simpl; lia)).
  - apply (equal_precedence_chains (column "a") (column "b") (column "c")
             "-" "+" 7 false false noTables "a" "b" "c");
      (reflexivity || (simpl; lia)).
Defined.

Lemma In_NotIn_panic_iff_nil_witness :
  In (column "x") [Int 1; Nil] = None
  ∧ NotIn (column "x") [Other (Slice [TimePtr None])] = None.
Proof.
  split.
  - apply (In_NotIn_panic_iff_nil (column "x") [Int 1; Nil]).
    apply Exists_cons_tl, Exists_cons_hd. constructor.
  - apply (In_NotIn_panic_iff_nil (column "x") [Other (Slice [TimePtr None])]).
    apply Exists_cons_hd.
    apply (holdsNil_held (TimePtr None)); repeat constructor.
Defined.

Lemma insert_errors_have_no_text_witness :
  fst <$> insertStatus_GetSQL (Values insertNoRow [Int 1; failingSelect])
  = Some ""%string.
Proof.
  destruct (insertStatus_GetSQL (Values insertNoRow [Int 1; failingSelect]))
    as [[text [err|]]|] eqn:Hresult.
  - rewrite (insert_errors_have_no_text _ text err Hresult). reflexivity.
  - vm_compute in Hresult. discriminate.
  - vm_compute in Hresult. discriminate.
Defined.
